(** * fmt_db2_output: a shallow embedding of the DB2 CLP table filter

    The program ([src/fmt_db2_output.py]) reads a text, finds fixed-width
    tables announced by a line of dashes, and prints the text again with
    every table re-rendered at its minimal column widths.

    Modelling choices.
    - A Python [str] is a list of Unicode code points ([N]); a list of
      lines is a [list str].
    - A subscript [l[i]] of a Python list is the partial lookup [l !! i]:
      [None] stands for the [IndexError] Python would raise, and it is
      threaded through the option monad.
    - The two accumulators of [main] are a [gset nat] (the set [consumed])
      and a [gmap nat (list str)] (the dict [output_map]); standard output
      is the list of the lines printed so far.
    - Loops over a string or a list are structural recursions; the
      scanning loop of [main], which jumps forward, runs on fuel.

    The file has three parts: the program, function by function; the
    notions of the specification (cells, widths, the rendered table); and
    the properties, grouped by the claim they settle. *)

From stdpp Require Import base option list gmap strings.

Local Open Scope nat_scope.

(** ** Strings *)

Abbreviation char := N (only parsing).
Abbreviation str := (list N) (only parsing).

Definition SPACE : char := 32%N.
Definition DASH : char := 45%N.
Definition NL : char := 10%N.
Definition CR : char := 13%N.
Definition BOM : char := 65279%N.

(** A literal of the source, as code points. *)
Definition py (s : string) : str :=
  Ascii.N_of_ascii <$> String.list_ascii_of_string s.

(** The characters Python's [str.strip], [lstrip] and [rstrip] remove when
    called without argument: those for which [str.isspace] holds. *)
Definition isspace (c : char) : bool :=
  ((9 <=? c) && (c <=? 13) || (28 <=? c) && (c <=? 32) || (c =? 133) ||
   (c =? 160) || (c =? 5760) || (8192 <=? c) && (c <=? 8202) ||
   (c =? 8232) || (c =? 8233) || (c =? 8239) || (c =? 8287) ||
   (c =? 12288))%N.

Definition is_dash (c : char) : bool := (c =? DASH)%N.
Definition is_space (c : char) : bool := (c =? SPACE)%N.

(** [s.lstrip()] *)
Fixpoint lstrip (s : str) : str :=
  match s with
  | c :: s' => if isspace c then lstrip s' else s
  | [] => []
  end.

(** [s.rstrip()] *)
Definition rstrip (s : str) : str := reverse (lstrip (reverse s)).

(** [s.strip()] *)
Definition strip (s : str) : str := rstrip (lstrip s).

(** [s[a:b]] for indices [0 <= a] and [0 <= b]: Python clamps both ends. *)
Definition slice (s : str) (a b : nat) : str := take (b - a) (drop a s).

(** [s.ljust(w)] and [s.rjust(w)]: pad with spaces, never truncate. *)
Definition ljust (s : str) (w : nat) : str := s ++ replicate (w - length s) SPACE.
Definition rjust (s : str) (w : nat) : str := replicate (w - length s) SPACE ++ s.

(** [sep.join(parts)] *)
Fixpoint join (sep : str) (parts : list str) : str :=
  match parts with
  | [] => []
  | [p] => p
  | p :: rest => p ++ sep ++ join sep rest
  end.

(** [not s.strip()]: the line is blank. *)
Definition blank (s : str) : bool := bool_decide (strip s = []).

(** [max((len(t) for t in ts), default=0)] *)
Definition max_len (ts : list str) : nat := max_list (length <$> ts).

(** [enumerate(l)] *)
Definition enumerate {A} (l : list A) : list (nat * A) := imap (λ i x, (i, x)) l.

(** ** Column geometry *)

Abbreviation span := (nat * nat)%type (only parsing).

(** [find_columns]. The two nested [while] loops are one pass over the
    characters: [start = Some st] while the inner loop is running on a
    run of dashes that began at [st], [None] in the outer loop; [i] is
    the index of the first character of [rest]. When the inner loop stops
    on a character that is not a dash, the outer loop sees the same
    character, takes its [else] branch and steps over it. *)
Fixpoint find_columns_from (rest : str) (i : nat) (start : option nat)
  : list span :=
  match rest, start with
  | [], None => []
  | [], Some st => [(st, i)]
  | c :: rest', None =>
      if is_dash c then find_columns_from rest' (S i) (Some i)
      else find_columns_from rest' (S i) None
  | c :: rest', Some st =>
      if is_dash c then find_columns_from rest' (S i) (Some st)
      else (st, i) :: find_columns_from rest' (S i) None
  end.

Definition find_columns (dash_line : str) : list span :=
  find_columns_from dash_line 0 None.

(** [find_gaps] *)
Definition find_gaps (columns : list span) : option (list span) :=
  mapM (λ i,
          ci ← columns !! i;
          cj ← columns !! (i + 1);
          mret (ci.2, cj.1))
       (seq 0 (length columns - 1)).

(** [is_valid_header_line]: the early [return False] makes the two loops a
    conjunction; [line[pos]] is only evaluated under [pos < len(line)]. *)
Definition is_valid_header_line (line : str) (columns gaps : list span) : bool :=
  forallb (λ gap : span,
     forallb (λ pos,
        negb (bool_decide (pos < length line) &&
              negb (bool_decide (line !! pos = Some SPACE))))
       (seq gap.1 (min gap.2 (length line) - gap.1)))
    gaps.

(** [extract_value] *)
Definition extract_value (line : str) (start end_ : nat) : str :=
  if bool_decide (length line ≤ start) then []
  else slice line start (min end_ (length line)).

(** ** Justification *)

Inductive justification := Left | Right.

#[global] Instance justification_eq_dec : EqDecision justification.
Proof. solve_decision. Defined.

(** [detect_justification] *)
Fixpoint detect_justification (raw_values : list str) : justification :=
  match raw_values with
  | [] => Left
  | val :: rest =>
      let stripped := strip val in
      if bool_decide (stripped = []) then detect_justification rest
      else
        let left_spaces := length val - length (lstrip val) in
        let right_spaces := length val - length (rstrip val) in
        if bool_decide (0 < left_spaces) && bool_decide (right_spaces = 0)
        then Right
        else if bool_decide (0 < right_spaces) && bool_decide (left_spaces = 0)
        then Left
        else if bool_decide (right_spaces < left_spaces)
        then Right
        else detect_justification rest
  end.

(** ** Header collection *)

(** The [while idx >= 0] loop of [collect_header_lines], by recursion on
    [idx + 1]; [header_indices] is the list built so far, nearest line
    first. *)
Fixpoint collect_header_loop (lines : list str) (columns gaps : list span)
    (idx_succ : nat) (header_indices : list nat) : option (list nat) :=
  match idx_succ with
  | 0 => Some header_indices
  | S idx =>
      line ← lines !! idx;
      if blank line then Some header_indices
      else if is_valid_header_line line columns gaps
      then collect_header_loop lines columns gaps idx (header_indices ++ [idx])
      else Some header_indices
  end.

(** [collect_header_lines] *)
Definition collect_header_lines (lines : list str) (dash_line_idx : nat)
    (columns : list span) : option (list nat) :=
  gaps ← find_gaps columns;
  header_indices ← collect_header_loop lines columns gaps dash_line_idx [];
  mret (reverse header_indices).

(** [extract_multiline_headers]: [header_texts[col_idx][line_idx]]. *)
Definition extract_multiline_headers (lines : list str)
    (header_indices : list nat) (columns : list span)
  : option (list (list str)) :=
  mapM (λ col : span,
          mapM (λ idx,
                  line ← lines !! idx;
                  mret (strip (extract_value line col.1 col.2)))
               header_indices)
       columns.

(** ** The table formatter *)

(** One rendered header line: the cells of line [line_idx], each padded on
    the right to its column's width, joined and right-trimmed. *)
Definition header_row (header_texts : list (list str)) (widths : list nat)
    (num_cols line_idx : nat) : option str :=
  header_parts ← mapM (λ col_idx,
                         col_texts ← header_texts !! col_idx;
                         text ← col_texts !! line_idx;
                         w ← widths !! col_idx;
                         mret (ljust text w))
                      (seq 0 num_cols);
  mret (rstrip (join [SPACE] header_parts)).

(** One rendered data line. *)
Definition data_row (justifications : list justification)
    (new_widths : list nat) (row : list str) : option str :=
  parts ← mapM (λ '(i, val),
                  j ← justifications !! i;
                  w ← new_widths !! i;
                  mret (if bool_decide (j = Right) then rjust val w
                        else ljust val w))
               (enumerate row);
  mret (rstrip (join [SPACE] parts)).

(** The raw cells of the data lines, [raw_values[row][col_idx]], and their
    trimmed variants. *)
Definition raw_rows (data_lines : list str) (columns : list span)
  : list (list str) :=
  (λ line : str, (λ col : span, extract_value line col.1 col.2) <$> columns)
    <$> data_lines.

Definition stripped_rows (raw_values : list (list str)) : list (list str) :=
  (λ raw_row : list str, strip <$> raw_row) <$> raw_values.

(** [[row[col_idx] for row in rows]] *)
Definition column_of (rows : list (list str)) (col_idx : nat)
  : option (list str) :=
  mapM (λ row : list str, row !! col_idx) rows.

(** The loop "Determine justification for each column" of [process_table]. *)
Definition column_justifications (raw_values : list (list str))
    (num_cols : nat) : option (list justification) :=
  mapM (λ col_idx,
          col_raw ← column_of raw_values col_idx;
          mret (detect_justification col_raw))
       (seq 0 num_cols).

(** The loop "Calculate new column widths" of [process_table]. *)
Definition column_widths (header_texts stripped_values : list (list str))
    (num_cols : nat) : option (list nat) :=
  mapM (λ col_idx,
          col_texts ← header_texts !! col_idx;
          col_vals ← column_of stripped_values col_idx;
          mret (max (max_len col_texts) (max_len col_vals)))
       (seq 0 num_cols).

(** The separator of the rendered table: a run of dashes per column. *)
Definition dash_row (new_widths : list nat) (num_cols : nat) : option str :=
  dash_parts ← mapM (λ i, w ← new_widths !! i; mret (replicate w DASH))
                    (seq 0 num_cols);
  mret (join [SPACE] dash_parts).

(** [process_table] *)
Definition process_table (lines : list str) (header_indices : list nat)
    (dash_line_idx : nat) (data_lines : list str) (columns : list span)
  : option (list str) :=
  let num_header_lines := length header_indices in
  header_texts ← extract_multiline_headers lines header_indices columns;
  let raw_values := raw_rows data_lines columns in
  let stripped_values := stripped_rows raw_values in
  justifications ← column_justifications raw_values (length columns);
  new_widths ← column_widths header_texts stripped_values (length columns);
  header_out ← mapM (header_row header_texts new_widths (length columns))
                    (seq 0 num_header_lines);
  dash_out ← dash_row new_widths (length columns);
  data_out ← mapM (data_row justifications new_widths) stripped_values;
  mret (header_out ++ [dash_out] ++ data_out).

(** ** Separator detection *)

(** [re.match(r'^[\- ]+$', line)]: one or more dashes and spaces up to the
    end of the string, where [$] also matches just before a final newline. *)
Definition re_match_dashes (line : str) : bool :=
  let body :=
    match last line with
    | Some c => if (c =? NL)%N then removelast line else line
    | None => line
    end in
  negb (bool_decide (body = [])) &&
  forallb (λ c, is_dash c || is_space c) body.

(** [is_dash_line] *)
Definition is_dash_line (line : str) : bool :=
  if bool_decide (line = []) || blank line then false
  else re_match_dashes line && bool_decide (DASH ∈ line).

(** ** The main pass *)

Record state := State {
  consumed : gset nat;
  output_map : gmap nat (list str);
  stdout : list str
}.

Definition print (line : str) (st : state) : state :=
  State (consumed st) (output_map st) (stdout st ++ [line]).

(** The data-collection loop [while j < len(lines)] started at
    [j = dash_line_idx + 1], on [rest = lines[j:]]: the lines appended to
    [data_lines]; the loop leaves [j] at [dash_line_idx + 1 + len(data_lines)]. *)
Fixpoint collect_data_lines (rest : list str) : list str :=
  match rest with
  | [] => []
  | line :: rest' =>
      if blank line then []
      else if is_dash_line line then []
      else line :: collect_data_lines rest'
  end.

(** The [else] branch of [if data_lines] in [main]: a header and a
    separator, no data. *)
Definition header_only_table (lines : list str) (header_indices : list nat)
    (columns : list span) : option (list str) :=
  header_texts ← extract_multiline_headers lines header_indices columns;
  let widths := max_len <$> header_texts in
  formatted ← mapM (header_row header_texts widths (length columns))
                   (seq 0 (length header_indices));
  mret (formatted ++ [join [SPACE] ((λ w, replicate w DASH) <$> widths)]).

(** One iteration of the scanning loop [while i < len(lines)] of [main],
    entered with [i < len(lines)]: the next value of [i] and the new
    accumulators. *)
Definition main_step (lines : list str) (i : nat) (st : state)
  : option (nat * state) :=
  line ← lines !! i;
  if is_dash_line line then
    let dash_line_idx := i in
    let columns := find_columns line in
    header_indices ← collect_header_lines lines dash_line_idx columns;
    if bool_decide (header_indices = []) then
      mret (i + 1, print line st)
    else
      let data_lines := collect_data_lines (drop (dash_line_idx + 1) lines) in
      let j := dash_line_idx + 1 + length data_lines in
      if bool_decide (data_lines ≠ []) then
        formatted ← process_table lines header_indices dash_line_idx
                                  data_lines columns;
        let consumed' :=
          consumed st ∪ list_to_set header_indices ∪ {[dash_line_idx]}
            ∪ list_to_set (seq (dash_line_idx + 1) (j - (dash_line_idx + 1))) in
        first_header_idx ← header_indices !! 0;
        mret (j, State consumed'
                       (<[first_header_idx := formatted]> (output_map st))
                       (stdout st))
      else
        formatted ← header_only_table lines header_indices columns;
        let consumed' :=
          consumed st ∪ list_to_set header_indices ∪ {[dash_line_idx]} in
        first_header_idx ← header_indices !! 0;
        mret (j, State consumed'
                       (<[first_header_idx := formatted]> (output_map st))
                       (stdout st))
  else mret (i + 1, st).

(** The scanning loop. Every iteration moves [i] forward, so [len(lines)]
    units of [fuel] are enough; [None] is an [IndexError] or the end of
    the fuel. *)
Fixpoint main_loop (fuel : nat) (lines : list str) (i : nat) (st : state)
  : option state :=
  if bool_decide (i < length lines) then
    match fuel with
    | 0 => None
    | S fuel' =>
        match main_step lines i st with
        | Some (i', st') => main_loop fuel' lines i' st'
        | None => None
        end
    end
  else Some st.

(** The body of the closing loop [for i in range(len(lines))] of [main]:
    what iteration [i] prints. *)
Definition output_at (lines : list str) (st : state) (i : nat)
  : option (list str) :=
  match output_map st !! i with
  | Some formatted => Some formatted
  | None =>
      if bool_decide (i ∈ consumed st) then Some []
      else line ← lines !! i; Some [line]
  end.

(** The closing loop: everything it prints. *)
Definition output_lines (lines : list str) (st : state) : option (list str) :=
  blocks ← mapM (output_at lines st) (seq 0 (length lines));
  mret (concat blocks).

(** [main] from the list of lines on: everything printed, in order. *)
Definition transform (lines : list str) : option (list str) :=
  st ← main_loop (length lines) lines 0 (State ∅ ∅ []);
  out ← output_lines lines st;
  mret (stdout st ++ out).

(** ** Reading and writing the streams *)

(** [content.replace('\r\n', '\n')] *)
Fixpoint replace_crlf (s : str) : str :=
  match s with
  | [] => []
  | c :: s' =>
      match s' with
      | d :: s'' =>
          if (c =? CR)%N && (d =? NL)%N then NL :: replace_crlf s''
          else c :: replace_crlf s'
      | [] => [c]
      end
  end.

(** [content.replace('\r', '\n')] *)
Definition replace_cr (s : str) : str :=
  (λ c, if (c =? CR)%N then NL else c) <$> s.

(** [content.split('\n')] *)
Fixpoint split_nl (s : str) : list str :=
  match s with
  | [] => [[]]
  | c :: s' =>
      if (c =? NL)%N then [] :: split_nl s'
      else match split_nl s' with
           | cur :: rest => (c :: cur) :: rest
           | [] => [[c]]
           end
  end.

(** The first lines of [main]: the text read from standard input, as lines. *)
Definition read_lines (content : str) : list str :=
  let content :=
    match content with
    | c :: content' => if (c =? BOM)%N then content' else content
    | [] => content
    end in
  let content := replace_cr (replace_crlf content) in
  let lines := split_nl content in
  match last lines with
  | Some [] => removelast lines
  | _ => lines
  end.

(** What a sequence of [print(line)] calls writes. *)
Definition write_lines (out : list str) : str :=
  concat ((λ line, line ++ [NL]) <$> out).

(** [main]: standard input to standard output. *)
Definition main (content : str) : option str :=
  out ← transform (read_lines content);
  mret (write_lines out).

(** * The specification's notions *)

(** The number of whitespace characters a cell starts with, and ends with. *)
Fixpoint leading_spaces (val : str) : nat :=
  match val with
  | c :: val' => if isspace c then S (leading_spaces val') else 0
  | [] => 0
  end.

Definition trailing_spaces (val : str) : nat := leading_spaces (reverse val).

(** The decision rule in the words of the specification: what one raw cell
    says about its column, if anything. *)
Definition cell_signal (val : str) : option justification :=
  if blank val then None
  else if bool_decide (0 < leading_spaces val ∧ trailing_spaces val = 0)
  then Some Right
  else if bool_decide (0 < trailing_spaces val ∧ leading_spaces val = 0)
  then Some Left
  else if bool_decide (trailing_spaces val < leading_spaces val)
  then Some Right
  else None.

(** The Gap Spans in the words of the data model: from the end of a column
    to the start of the next one. *)
Fixpoint gap_spans (columns : list span) : list span :=
  match columns with
  | [] => []
  | ci :: rest =>
      match rest with
      | [] => []
      | cj :: _ => (ci.2, cj.1) :: gap_spans rest
      end
  end.

(** Every position of a Gap Span that the line has holds a space. *)
Definition gap_pure (line : str) (gaps : list span) : Prop :=
  ∀ (gap : span) pos, gap ∈ gaps → gap.1 ≤ pos < gap.2 →
    pos < length line → line !! pos = Some SPACE.

(** The acceptance rule of the Header Collector. *)
Definition header_accepted (line : str) (gaps : list span) : Prop :=
  blank line = false ∧ gap_pure line gaps.

(** The trimmed text of a line at a Column Span: a Header Cell, or the
    stripped variant of a Data Cell. *)
Definition cell (line : str) (col : span) : str :=
  strip (extract_value line col.1 col.2).

(** The Column Width: the longest Header Cell or stripped Data Cell of the
    column, 0 when there is none. *)
Definition width_of (header_lines data_lines : list str) (col : span) : nat :=
  max (max_len ((λ line, cell line col) <$> header_lines))
      (max_len ((λ line, cell line col) <$> data_lines)).

(** The Justification of a column, from its raw Data Cells. *)
Definition justification_of (data_lines : list str) (col : span)
  : justification :=
  detect_justification ((λ line, extract_value line col.1 col.2) <$> data_lines).

(** The rendered table of the contract of the Table Formatter, line by
    line. *)
Definition header_parts (header_lines data_lines : list str)
    (columns : list span) (line : str) : list str :=
  (λ col, ljust (cell line col) (width_of header_lines data_lines col))
    <$> columns.

Definition dash_parts (header_lines data_lines : list str)
    (columns : list span) : list str :=
  (λ col, replicate (width_of header_lines data_lines col) DASH) <$> columns.

Definition data_parts (header_lines data_lines : list str)
    (columns : list span) (line : str) : list str :=
  (λ col,
     if bool_decide (justification_of data_lines col = Right)
     then rjust (cell line col) (width_of header_lines data_lines col)
     else ljust (cell line col) (width_of header_lines data_lines col))
    <$> columns.

Definition render_header_line (header_lines data_lines : list str)
    (columns : list span) (line : str) : str :=
  rstrip (join [SPACE] (header_parts header_lines data_lines columns line)).

Definition render_dash_line (header_lines data_lines : list str)
    (columns : list span) : str :=
  join [SPACE] (dash_parts header_lines data_lines columns).

Definition render_data_line (header_lines data_lines : list str)
    (columns : list span) (line : str) : str :=
  rstrip (join [SPACE] (data_parts header_lines data_lines columns line)).

Definition render_table (header_lines data_lines : list str)
    (columns : list span) : list str :=
  (render_header_line header_lines data_lines columns <$> header_lines)
  ++ [render_dash_line header_lines data_lines columns]
  ++ (render_data_line header_lines data_lines columns <$> data_lines).

(** A string has no trailing whitespace. *)
Definition right_trimmed (s : str) : Prop := rstrip s = s.

(** The accumulators after a table with header block [top .. i - 1],
    separator [i] and data lines [data_lines] has been handled. *)
Definition table_state (lines : list str) (top i : nat)
    (data_lines : list str) (columns : list span) (st : state) : state :=
  State (consumed st ∪ list_to_set (seq top (i - top)) ∪ {[i]}
           ∪ list_to_set (seq (i + 1) (length data_lines)))
        (<[top := render_table (take (i - top) (drop top lines))
                               data_lines columns]> (output_map st))
        (stdout st).

(** The Column Spans of a rendered separator: runs of the given widths, one
    space apart, the first one starting at [a]. *)
Fixpoint spans_from (a : nat) (widths : list nat) : list span :=
  match widths with
  | [] => []
  | w :: widths' => (a, a + w) :: spans_from (a + w + 1) widths'
  end.

(** What holds of the accumulators of [main] each time the scanning loop
    tests [i < len(lines)]: every consumed index lies below [i] and at or
    below it there is an entry of [output_map]; every entry of
    [output_map] sits at a consumed index and is the rendering of the
    table of a Separator Line [d] below [i], with the lines from the entry
    to [d] as header block and the data lines collected below [d]; every
    line printed so far is a Separator Line of the input above [i]. *)
Definition scan_invariant (lines : list str) (i : nat) (st : state) : Prop :=
  i ≤ length lines ∧
  (∀ k, k ∈ consumed st →
        k < i ∧ ∃ a, a ≤ k ∧ is_Some (output_map st !! a)) ∧
  (∀ a block, output_map st !! a = Some block →
     a ∈ consumed st ∧
     ∃ d dash_line,
       a < d < i ∧ lines !! d = Some dash_line ∧
       is_dash_line dash_line = true ∧
       block = render_table (take (d - a) (drop a lines))
                            (collect_data_lines (drop (d + 1) lines))
                            (find_columns dash_line)) ∧
  (∀ line, line ∈ stdout st →
           ∃ d, d < i ∧ lines !! d = Some line ∧ is_dash_line line = true).

(** ** A text as a sequence of blocks *)

(** A text seen as a sequence of blocks: runs of lines that are no
    Separator Lines, and tables (header block, separator, data block). *)
Inductive block :=
  | Text (text : list str)
  | Table (header_lines : list str) (dash_line : str) (data_lines : list str).

Definition block_lines (b : block) : list str :=
  match b with
  | Text text => text
  | Table header_lines dash_line data_lines =>
      header_lines ++ [dash_line] ++ data_lines
  end.

(** The lines of the blocks, and the lines with every table rendered. *)
Definition text_of (blocks : list block) : list str :=
  concat (block_lines <$> blocks).

Definition block_rendered (b : block) : list str :=
  match b with
  | Text text => text
  | Table header_lines dash_line data_lines =>
      render_table header_lines data_lines (find_columns dash_line)
  end.

Definition rendered_text (blocks : list block) : list str :=
  concat (block_rendered <$> blocks).

(** The rendered table as a block of its own: its header block, its
    separator and its data block. *)
Definition block_again (b : block) : block :=
  match b with
  | Text text => Text text
  | Table header_lines dash_line data_lines =>
      let columns := find_columns dash_line in
      Table (render_header_line header_lines data_lines columns <$> header_lines)
            (render_dash_line header_lines data_lines columns)
            (render_data_line header_lines data_lines columns <$> data_lines)
  end.

(** The upward walk of the Header Collector stops right above the block:
    there is no line [above], or the last one is blank or has text in a
    gap of [columns]. *)
Definition header_rejected (above : list str) (columns : list span) : bool :=
  match last above with
  | Some line =>
      blank line || negb (is_valid_header_line line columns (gap_spans columns))
  | None => true
  end.

(** The blocks are what the scan finds below the lines [above]: no line of
    a text block is a Separator Line; a table has a header block that is
    not empty, made of lines that are no Separator Lines and are accepted
    for the separator, a separator, and data lines that are neither blank
    nor Separator Lines; the line right above the header block is rejected
    and the line right below the data block, if there is one, is blank. *)
Fixpoint laid_out (above : list str) (blocks : list block) : bool :=
  match blocks with
  | [] => true
  | Text text :: rest =>
      forallb (λ line, negb (is_dash_line line)) text &&
      laid_out (above ++ text) rest
  | Table header_lines dash_line data_lines :: rest =>
      let columns := find_columns dash_line in
      negb (bool_decide (header_lines = [])) &&
      is_dash_line dash_line &&
      forallb (λ line, negb (blank line) && negb (is_dash_line line) &&
                       is_valid_header_line line columns (gap_spans columns))
              header_lines &&
      forallb (λ line, negb (blank line) && negb (is_dash_line line))
              data_lines &&
      header_rejected above columns &&
      match text_of rest with
      | line :: _ => blank line
      | [] => true
      end &&
      laid_out (above ++ header_lines ++ [dash_line] ++ data_lines) rest
  end.

(** The rendered tables can be found again below the rendered lines
    [above]: every column of a table keeps a positive width, no rendered
    header or data line is blank or a Separator Line, and the line right
    above the rendered header block is rejected for the rendered
    separator as well. *)
Fixpoint keeps_layout (above : list str) (blocks : list block) : bool :=
  match blocks with
  | [] => true
  | Text text :: rest => keeps_layout (above ++ text) rest
  | Table header_lines dash_line data_lines :: rest =>
      let columns := find_columns dash_line in
      forallb (λ col, bool_decide (0 < width_of header_lines data_lines col))
              columns &&
      forallb (λ line, negb (blank line) && negb (is_dash_line line))
              ((render_header_line header_lines data_lines columns
                  <$> header_lines) ++
               (render_data_line header_lines data_lines columns
                  <$> data_lines)) &&
      header_rejected above
        (find_columns (render_dash_line header_lines data_lines columns)) &&
      keeps_layout (above ++ render_table header_lines data_lines columns) rest
  end.

(** The accumulators of [main] after the scan has gone over the blocks,
    the first of which starts at index [off]. *)
Fixpoint scan_blocks (lines : list str) (off : nat) (blocks : list block)
    (st : state) : state :=
  match blocks with
  | [] => st
  | Text text :: rest => scan_blocks lines (off + length text) rest st
  | Table header_lines dash_line data_lines :: rest =>
      scan_blocks lines
        (off + length header_lines + 1 + length data_lines) rest
        (table_state lines off (off + length header_lines) data_lines
                     (find_columns dash_line) st)
  end.

(** * Properties *)

Implicit Types (lines header_lines data_lines : list str) (line : str).
Implicit Types (columns gaps : list span) (col : span).
Implicit Types (header_indices : list nat).

(** ** Trimming *)

Section trimming.
Implicit Types s t ws : str.

Lemma isspace_SPACE : isspace SPACE = true.
Proof. reflexivity. Qed.

Lemma lstrip_spaces ws s : Forall (λ c, isspace c = true) ws →
  lstrip (ws ++ s) = lstrip s.
Proof. induction 1 as [|c ws Hc _ IH]; simpl; [done|]. by rewrite Hc. Qed.

Lemma lstrip_all ws : Forall (λ c, isspace c = true) ws → lstrip ws = [].
Proof.
  intros H. rewrite <-(app_nil_r ws). by rewrite lstrip_spaces.
Qed.

Lemma lstrip_split s :
  ∃ ws, s = ws ++ lstrip s ∧ Forall (λ c, isspace c = true) ws.
Proof.
  induction s as [|c s [ws [IH1 IH2]]]; simpl.
  - by exists [].
  - destruct (isspace c) eqn:Hc.
    + exists (c :: ws). split; [simpl; congruence | by constructor].
    + by exists [].
Qed.

Lemma lstrip_head s c t : lstrip s = c :: t → isspace c = false.
Proof.
  induction s as [|d s IH]; simpl; [done|].
  destruct (isspace d) eqn:Hd; [done|]. by intros [= -> ->].
Qed.

Lemma lstrip_id c s : isspace c = false → lstrip (c :: s) = c :: s.
Proof. intros H. simpl. by rewrite H. Qed.

Lemma lstrip_idemp s : lstrip (lstrip s) = lstrip s.
Proof.
  destruct (lstrip s) as [|c t] eqn:E; [done|].
  apply lstrip_id. by eapply lstrip_head.
Qed.

Lemma lstrip_nil_iff s : lstrip s = [] ↔ Forall (λ c, isspace c = true) s.
Proof.
  split; [|apply lstrip_all].
  destruct (lstrip_split s) as [ws [E H]]. intros E'.
  rewrite E' in E. rewrite app_nil_r in E. by subst.
Qed.

Lemma length_lstrip s : length (lstrip s) ≤ length s.
Proof.
  destruct (lstrip_split s) as [ws [E _]].
  rewrite E at 2. rewrite length_app. lia.
Qed.

Lemma rstrip_nil : rstrip [] = [].
Proof. reflexivity. Qed.

Lemma rstrip_spaces s ws : Forall (λ c, isspace c = true) ws →
  rstrip (s ++ ws) = rstrip s.
Proof.
  intros H. unfold rstrip. rewrite reverse_app, lstrip_spaces; [done|].
  by apply Forall_reverse.
Qed.

Lemma rstrip_all ws : Forall (λ c, isspace c = true) ws → rstrip ws = [].
Proof. intros H. by rewrite <-(app_nil_l ws), rstrip_spaces. Qed.

Lemma rstrip_split s :
  ∃ ws, s = rstrip s ++ ws ∧ Forall (λ c, isspace c = true) ws.
Proof.
  destruct (lstrip_split (reverse s)) as [ws [E H]].
  exists (reverse ws). split; [|by apply Forall_reverse].
  unfold rstrip. rewrite <-reverse_app, <-E. by rewrite reverse_involutive.
Qed.

Lemma rstrip_last s c : last (rstrip s) = Some c → isspace c = false.
Proof.
  unfold rstrip. rewrite last_reverse.
  destruct (lstrip (reverse s)) as [|d t] eqn:E; [done|].
  intros [= ->]. by eapply lstrip_head.
Qed.

Lemma rstrip_snoc s c : isspace c = false → rstrip (s ++ [c]) = s ++ [c].
Proof.
  intros H. unfold rstrip. rewrite reverse_snoc, lstrip_id by done.
  by rewrite reverse_cons, reverse_involutive.
Qed.

Lemma rstrip_idemp s : rstrip (rstrip s) = rstrip s.
Proof.
  unfold rstrip. by rewrite reverse_involutive, lstrip_idemp.
Qed.

Lemma rstrip_nil_iff s : rstrip s = [] ↔ Forall (λ c, isspace c = true) s.
Proof.
  split; [|apply rstrip_all].
  destruct (rstrip_split s) as [ws [E H]]. intros E'.
  rewrite E' in E. by subst.
Qed.

Lemma strip_nil_iff s : strip s = [] ↔ Forall (λ c, isspace c = true) s.
Proof.
  unfold strip. rewrite rstrip_nil_iff. split.
  - intros H. destruct (lstrip_split s) as [ws [E Hws]].
    rewrite E. by apply Forall_app.
  - intros H. apply lstrip_nil_iff in H. by rewrite H.
Qed.

Lemma blank_true s : blank s = true ↔ Forall (λ c, isspace c = true) s.
Proof.
  unfold blank. rewrite <-strip_nil_iff.
  split; [apply bool_decide_eq_true_1 | apply bool_decide_eq_true_2].
Qed.

Lemma blank_false s : blank s = false ↔ ∃ c, c ∈ s ∧ isspace c = false.
Proof.
  rewrite <-not_true_iff_false, blank_true, <-Exists_Forall_neg by
    (intros c; destruct (isspace c); [by left | by right]).
  rewrite Exists_exists. by setoid_rewrite not_true_iff_false.
Qed.
End trimming.

(** ** Lines *)

Lemma elem_of_removelast {A} (l : list A) x : x ∈ removelast l → x ∈ l.
Proof.
  induction l as [|y l IH]; simpl; [done|].
  destruct l as [|z l]; [by intros ?%elem_of_nil|].
  intros [->|H]%elem_of_cons; [left | right; by apply IH].
Qed.

Lemma split_nl_no_newline s line : line ∈ split_nl s → NL ∉ line.
Proof.
  revert line. induction s as [|c s IH]; simpl; intros line.
  - intros ->%list_elem_of_singleton. apply not_elem_of_nil.
  - destruct (N.eqb_spec c NL) as [->|Hc].
    + intros [->|H]%elem_of_cons; [apply not_elem_of_nil | by apply IH].
    + destruct (split_nl s) as [|cur rest].
      * intros ->%list_elem_of_singleton.
        intros [?|?%elem_of_nil]%elem_of_cons; congruence.
      * intros [->|H]%elem_of_cons.
        -- intros [?|H]%elem_of_cons; [congruence|].
           by apply (IH cur); [left|].
        -- apply IH. by right.
Qed.

Lemma split_nl_replace_cr_no_cr s line :
  line ∈ split_nl (replace_cr s) → CR ∉ line.
Proof.
  revert line. induction s as [|c s IH]; simpl; intros line.
  - intros ->%list_elem_of_singleton. apply not_elem_of_nil.
  - destruct (N.eqb_spec c CR) as [->|Hc]; simpl.
    + intros [->|H]%elem_of_cons; [apply not_elem_of_nil | by apply IH].
    + destruct (N.eqb_spec c NL) as [->|Hn].
      * intros [->|H]%elem_of_cons; [apply not_elem_of_nil | by apply IH].
      * destruct (split_nl (replace_cr s)) as [|cur rest].
        -- intros ->%list_elem_of_singleton.
           intros [?|?%elem_of_nil]%elem_of_cons; congruence.
        -- intros [->|H]%elem_of_cons.
           ++ intros [?|H]%elem_of_cons; [congruence|].
              by apply (IH cur); [left|].
           ++ apply IH. by right.
Qed.

(** Every line handed to the scanner is free of line breaks. *)
Lemma read_lines_no_newline content line :
  line ∈ read_lines content → (NL ∉ line) ∧ (CR ∉ line).
Proof.
  unfold read_lines.
  set (c := replace_cr _). intros H.
  assert (line ∈ split_nl c) as Hin.
  { destruct (last (split_nl c)) as [[|? ?]|]; [|done..].
    by apply elem_of_removelast. }
  split; [by eapply split_nl_no_newline | by eapply split_nl_replace_cr_no_cr].
Qed.

(** ** Separator detection (C8) *)

Lemma re_match_dashes_iff line : NL ∉ line →
  re_match_dashes line = true ↔
    line ≠ [] ∧ Forall (λ c, c = DASH ∨ c = SPACE) line.
Proof.
  intros Hnl. unfold re_match_dashes.
  assert (match last line with
          | Some c => if (c =? NL)%N then removelast line else line
          | None => line
          end = line) as ->.
  { destruct (last line) as [c|] eqn:E; [|done].
    destruct (N.eqb_spec c NL) as [->|]; [|done].
    destruct Hnl. by eapply last_Some_elem_of. }
  rewrite andb_true_iff, negb_true_iff, bool_decide_eq_false.
  rewrite forallb_forall, Forall_forall.
  split; intros [H1 H2]; (split; [done|]); intros c Hc.
  - apply list_elem_of_In, H2 in Hc. apply orb_true_iff in Hc.
    unfold is_dash, is_space in Hc. rewrite !N.eqb_eq in Hc. done.
  - apply list_elem_of_In, H2 in Hc. apply orb_true_iff.
    unfold is_dash, is_space. by rewrite !N.eqb_eq.
Qed.

Lemma is_dash_line_iff line : NL ∉ line →
  is_dash_line line = true ↔
    blank line = false ∧ Forall (λ c, c = DASH ∨ c = SPACE) line ∧ DASH ∈ line.
Proof.
  intros Hnl. unfold is_dash_line.
  destruct (bool_decide (line = [])) eqn:E1; simpl.
  { apply bool_decide_eq_true_1 in E1 as ->.
    split; [done|]. by intros (_ & _ & ?%elem_of_nil). }
  apply bool_decide_eq_false_1 in E1.
  destruct (blank line) eqn:E2.
  { split; [done|]. by intros [? _]. }
  rewrite andb_true_iff, re_match_dashes_iff, bool_decide_eq_true by done.
  split; [intros [[_ ?] ?] | intros (_ & ? & ?)]; done.
Qed.

(** The end-of-string anchor of the pattern also matches before a final
    line break, which the lines of the input never have. *)
Example is_dash_line_trailing_newline : is_dash_line (py "---" ++ [NL]) = true.
Proof. reflexivity. Qed.

(** C8. A line of the input is a Separator Line if and only if it is not
    blank, each of its characters is the dash or the space, and it has at
    least one dash. *)
Theorem separator_line_iff content line :
  line ∈ read_lines content →
  is_dash_line line = true ↔
    blank line = false ∧ Forall (λ c, c = DASH ∨ c = SPACE) line ∧ DASH ∈ line.
Proof.
  intros [Hnl _]%read_lines_no_newline. by apply is_dash_line_iff.
Qed.

Lemma separator_line_iff_witness :
  py "-- -" ∈ read_lines (py "A  B" ++ [NL] ++ py "-- -" ++ [CR; NL]) ∧
  (is_dash_line (py "-- -") = true ↔
     blank (py "-- -") = false ∧
     Forall (λ c, c = DASH ∨ c = SPACE) (py "-- -") ∧ DASH ∈ py "-- -").
Proof.
  assert (py "-- -" ∈ read_lines (py "A  B" ++ [NL] ++ py "-- -" ++ [CR; NL]))
    as H by (vm_compute; right; left).
  split; [exact H | exact (separator_line_iff _ _ H)].
Defined.

(** ** Loops over index ranges *)

Lemma mapM_Some_fmap {A B} (f : A → option B) (g : A → B) (l : list A) :
  (∀ x, x ∈ l → f x = Some (g x)) → mapM f l = Some (g <$> l).
Proof.
  intros H. apply mapM_Some_2. induction l as [|x l IH]; simpl; [constructor|].
  constructor; [apply H; left | apply IH; intros y Hy; apply H; by right].
Qed.

Lemma mapM_fmap_Some_fmap {A B C} (f : B → option C) (g : A → B) (h : A → C)
    (l : list A) :
  (∀ x, x ∈ l → f (g x) = Some (h x)) → mapM f (g <$> l) = Some (h <$> l).
Proof.
  intros H. apply mapM_Some_2. induction l as [|x l IH]; simpl; [constructor|].
  constructor; [apply H; left | apply IH; intros y Hy; apply H; by right].
Qed.

(** ** Justification (C4) *)

Lemma leading_spaces_lstrip val :
  length val - length (lstrip val) = leading_spaces val.
Proof.
  induction val as [|c val IH]; simpl; [done|].
  destruct (isspace c); simpl; [|lia].
  pose proof (length_lstrip val). lia.
Qed.

Lemma trailing_spaces_rstrip val :
  length val - length (rstrip val) = trailing_spaces val.
Proof.
  unfold rstrip, trailing_spaces.
  rewrite length_reverse, <-leading_spaces_lstrip. by rewrite length_reverse.
Qed.

Lemma detect_justification_cons val rest :
  detect_justification (val :: rest) =
    match cell_signal val with
    | Some j => j
    | None => detect_justification rest
    end.
Proof.
  simpl. unfold cell_signal, blank.
  rewrite leading_spaces_lstrip, trailing_spaces_rstrip.
  destruct (bool_decide (strip val = [])); [done|].
  set (l := leading_spaces val). set (r := trailing_spaces val).
  repeat case_bool_decide; simpl; try done; lia.
Qed.

Lemma detect_justification_first pre val post j :
  Forall (λ v, cell_signal v = None) pre → cell_signal val = Some j →
  detect_justification (pre ++ val :: post) = j.
Proof.
  intros Hpre Hval. induction Hpre as [|v pre Hv _ IH].
  - by rewrite app_nil_l, detect_justification_cons, Hval.
  - by rewrite <-app_comm_cons, detect_justification_cons, Hv.
Qed.

Lemma detect_justification_default cells :
  Forall (λ v, cell_signal v = None) cells → detect_justification cells = Left.
Proof.
  induction 1 as [|v cells Hv _ IH]; [done|].
  by rewrite detect_justification_cons, Hv.
Qed.

Lemma column_of_raw_rows data_lines columns c (col : span) :
  columns !! c = Some col →
  column_of (raw_rows data_lines columns) c =
    Some ((λ line, extract_value line col.1 col.2) <$> data_lines).
Proof.
  intros Hc. unfold column_of, raw_rows.
  apply mapM_fmap_Some_fmap. intros line _.
  by rewrite list_lookup_fmap, Hc.
Qed.

Lemma column_justifications_raw_rows data_lines columns :
  column_justifications (raw_rows data_lines columns) (length columns) =
    Some ((λ col : span,
             detect_justification
               ((λ line, extract_value line col.1 col.2) <$> data_lines))
            <$> columns).
Proof.
  unfold column_justifications. apply mapM_Some_2.
  apply Forall2_same_length_lookup_2.
  { by rewrite length_seq, length_fmap. }
  intros i k j [-> Hi]%lookup_seq. rewrite list_lookup_fmap.
  destruct (columns !! i) as [col|] eqn:Hc; [|done]. simpl. intros [= <-].
  by rewrite (column_of_raw_rows _ _ _ _ Hc).
Qed.

(** C4. The justification of a column is the signal of its first raw data
    cell that gives one, in row order, whatever the later cells are; with
    no such cell it is [Left]. *)
Theorem justification_first_signal data_lines columns c (col : span) :
  columns !! c = Some col →
  ∃ justifications,
    column_justifications (raw_rows data_lines columns) (length columns)
      = Some justifications ∧
    length justifications = length columns ∧
    (∀ pre val post j,
       (λ line, extract_value line col.1 col.2) <$> data_lines
         = pre ++ val :: post →
       Forall (λ v, cell_signal v = None) pre →
       cell_signal val = Some j →
       justifications !! c = Some j) ∧
    (Forall (λ v, cell_signal v = None)
            ((λ line, extract_value line col.1 col.2) <$> data_lines) →
     justifications !! c = Some Left).
Proof.
  intros Hc. eexists. split; [apply column_justifications_raw_rows|].
  split; [by rewrite length_fmap|].
  rewrite list_lookup_fmap, Hc. simpl. split.
  - intros pre val post j -> Hpre Hval. f_equal.
    by apply detect_justification_first.
  - intros H. f_equal. by apply detect_justification_default.
Qed.

Lemma justification_first_signal_witness :
  [(2, 4); (5, 8)] !! 1 = Some (5, 8) ∧
  ∃ justifications,
    column_justifications
      (raw_rows [py "  xx    "; py "  yy   7"; py "  zz 8  "] [(2, 4); (5, 8)]) 2
      = Some justifications ∧
    justifications !! 1 = Some Right.
Proof.
  split; [reflexivity|].
  destruct (justification_first_signal
              [py "  xx    "; py "  yy   7"; py "  zz 8  "]
              [(2, 4); (5, 8)] 1 (5, 8) eq_refl)
    as (js & Hjs & _ & Hfirst & _).
  exists js. split; [exact Hjs|].
  apply (Hfirst [py "   "] (py "  7") [py "8  "] Right);
    [reflexivity | by repeat constructor | reflexivity].
Defined.

(** ** Header collection (C7, C10) *)

Lemma length_gap_spans columns : length (gap_spans columns) = length columns - 1.
Proof.
  induction columns as [|ci [|cj rest] IH]; simpl in *; [done..|].
  rewrite IH. lia.
Qed.

Lemma lookup_gap_spans columns i (ci cj : span) :
  columns !! i = Some ci → columns !! (i + 1) = Some cj →
  gap_spans columns !! i = Some (ci.2, cj.1).
Proof.
  revert i. induction columns as [|c0 [|c1 rest] IH]; intros i; [done| |].
  - destruct i; simpl; [done|]. by rewrite lookup_nil.
  - destruct i as [|i].
    + simpl. by intros [= ->] [= ->].
    + intros H1 H2. by apply (IH i).
Qed.

Lemma find_gaps_spec columns : find_gaps columns = Some (gap_spans columns).
Proof.
  unfold find_gaps. apply mapM_Some_2, Forall2_same_length_lookup_2.
  { by rewrite length_seq, length_gap_spans. }
  intros i k gap [-> Hi]%lookup_seq Hgap. simpl.
  destruct (lookup_lt_is_Some_2 columns i) as [ci Hci]; [lia|].
  destruct (lookup_lt_is_Some_2 columns (i + 1)) as [cj Hcj]; [lia|].
  rewrite Hci. simpl. rewrite Hcj. simpl.
  rewrite (lookup_gap_spans _ _ _ _ Hci Hcj) in Hgap. exact Hgap.
Qed.

Lemma is_valid_header_line_iff line columns gaps :
  is_valid_header_line line columns gaps = true ↔ gap_pure line gaps.
Proof.
  unfold is_valid_header_line, gap_pure. rewrite forallb_forall. split.
  - intros H gap pos Hgap Hpos Hlen.
    apply list_elem_of_In, H in Hgap. rewrite forallb_forall in Hgap.
    specialize (Hgap pos). rewrite <-list_elem_of_In, elem_of_seq in Hgap.
    rewrite negb_true_iff, andb_false_iff, negb_false_iff in Hgap.
    destruct Hgap as [Hgap|Hgap]; [lia| |].
    + apply bool_decide_eq_false_1 in Hgap. lia.
    + by apply bool_decide_eq_true_1 in Hgap.
  - intros H gap Hgap%list_elem_of_In. rewrite forallb_forall.
    intros pos Hpos%list_elem_of_In%elem_of_seq.
    rewrite negb_true_iff, andb_false_iff, negb_false_iff. right.
    apply bool_decide_eq_true_2, (H gap); [done|lia..].
Qed.

Lemma header_accepted_dec line columns gaps :
  blank line = false ∧ is_valid_header_line line columns gaps = true ↔
  header_accepted line gaps.
Proof. unfold header_accepted. by rewrite is_valid_header_line_iff. Qed.

(** The upward walk: it returns the indices from [dash_line_idx - 1] down
    to the first line, [top], of the longest run of accepted lines that
    ends just above the separator. *)
Lemma collect_header_loop_spec lines columns gaps n acc :
  n ≤ length lines →
  ∃ top,
    top ≤ n ∧
    collect_header_loop lines columns gaps n acc
      = Some (acc ++ reverse (seq top (n - top))) ∧
    (∀ idx, top ≤ idx < n →
       ∃ line, lines !! idx = Some line ∧ header_accepted line gaps) ∧
    (top = 0 ∨
     ∃ line, lines !! (top - 1) = Some line ∧ ¬ header_accepted line gaps).
Proof.
  revert acc. induction n as [|idx IH]; intros acc Hn.
  { exists 0. simpl. rewrite app_nil_r.
    split; [lia|]. split; [done|]. split; [intros; lia | by left]. }
  destruct (lookup_lt_is_Some_2 lines idx) as [line Hline]; [lia|].
  simpl. rewrite Hline. simpl.
  destruct (blank line) eqn:Hb; [|destruct (is_valid_header_line _ _ _) eqn:Hv].
  - exists (S idx). replace (S idx - 1) with idx by lia.
    rewrite Nat.sub_diag. simpl. rewrite app_nil_r.
    split; [lia|]. split; [done|]. split; [intros; lia|]. right. exists line.
    split; [done|]. intros [? _]. congruence.
  - destruct (IH (acc ++ [idx])) as (top & Htop & -> & Hall & Hstop); [lia|].
    exists top. split; [lia|]. split; [|split; [|done]].
    + replace (S idx - top) with (S (idx - top)) by lia.
      rewrite seq_S, reverse_snoc, <-app_assoc. simpl.
      do 3 f_equal. lia.
    + intros i Hi. destruct (decide (i = idx)) as [->|].
      * exists line. split; [done|]. by apply (header_accepted_dec _ columns).
      * apply Hall. lia.
  - exists (S idx). replace (S idx - 1) with idx by lia.
    rewrite Nat.sub_diag. simpl. rewrite app_nil_r.
    split; [lia|]. split; [done|]. split; [intros; lia|]. right. exists line.
    split; [done|].
    intros [_ H]%(header_accepted_dec _ columns). congruence.
Qed.

Lemma collect_header_lines_spec lines dash_line_idx columns :
  dash_line_idx ≤ length lines →
  ∃ top,
    top ≤ dash_line_idx ∧
    collect_header_lines lines dash_line_idx columns
      = Some (seq top (dash_line_idx - top)) ∧
    (∀ idx, top ≤ idx < dash_line_idx →
       ∃ line, lines !! idx = Some line ∧
               header_accepted line (gap_spans columns)) ∧
    (top = 0 ∨
     ∃ line, lines !! (top - 1) = Some line ∧
             ¬ header_accepted line (gap_spans columns)).
Proof.
  intros Hd. unfold collect_header_lines. rewrite find_gaps_spec. simpl.
  destruct (collect_header_loop_spec lines columns (gap_spans columns)
              dash_line_idx [] Hd) as (top & Htop & -> & Hall & Hstop).
  exists top. simpl. by rewrite reverse_involutive.
Qed.

(** C7. A line above the separator is a Header Line exactly when it is not
    blank and every Gap Span position it has holds a space; the walk goes
    up from the line above the separator, ends at the first line that is
    not accepted or at the start of the input, and the indices come back
    top to bottom. *)
Theorem header_collection_contract lines dash_line_idx columns :
  dash_line_idx ≤ length lines →
  find_gaps columns = Some (gap_spans columns) ∧
  (∀ line,
     blank line = false ∧
     is_valid_header_line line columns (gap_spans columns) = true ↔
     blank line = false ∧
     ∀ (gap : span) pos, gap ∈ gap_spans columns → gap.1 ≤ pos < gap.2 →
       pos < length line → line !! pos = Some SPACE) ∧
  ∃ top,
    top ≤ dash_line_idx ∧
    collect_header_lines lines dash_line_idx columns
      = Some (seq top (dash_line_idx - top)) ∧
    (∀ idx, top ≤ idx < dash_line_idx →
       ∃ line, lines !! idx = Some line ∧
               header_accepted line (gap_spans columns)) ∧
    (top = 0 ∨
     ∃ line, lines !! (top - 1) = Some line ∧
             ¬ header_accepted line (gap_spans columns)).
Proof.
  intros Hd. split; [apply find_gaps_spec|]. split.
  - intros line. apply header_accepted_dec.
  - by apply collect_header_lines_spec.
Qed.

Lemma header_collection_contract_witness :
  3 ≤ length [py "text|here"; py "COL     B"; py "NAME    C"; py "----  ---"] ∧
  ∃ top,
    collect_header_lines
      [py "text|here"; py "COL     B"; py "NAME    C"; py "----  ---"]
      3 [(0, 4); (6, 9)] = Some (seq top (3 - top)).
Proof.
  assert (3 ≤ length [py "text|here"; py "COL     B"; py "NAME    C";
                      py "----  ---"]) as Hd by (simpl; lia).
  split; [exact Hd|].
  destruct (header_collection_contract _ _ [(0, 4); (6, 9)] Hd)
    as (_ & _ & top & _ & H & _ & _).
  exists top. exact H.
Defined.

(** C10. When the separator has exactly one Column Span there is no Gap
    Span, every line passes the validity check, and the header block is
    the whole run of lines that are not blank above the separator, up to
    the first blank line or the start of the input. *)
Theorem single_column_header_collection lines dash_line_idx dash_line :
  lines !! dash_line_idx = Some dash_line →
  length (find_columns dash_line) = 1 →
  find_gaps (find_columns dash_line) = Some [] ∧
  (∀ line, is_valid_header_line line (find_columns dash_line) [] = true) ∧
  ∃ top,
    top ≤ dash_line_idx ∧
    collect_header_lines lines dash_line_idx (find_columns dash_line)
      = Some (seq top (dash_line_idx - top)) ∧
    (∀ idx, top ≤ idx < dash_line_idx →
       ∃ line, lines !! idx = Some line ∧ blank line = false) ∧
    (top = 0 ∨ ∃ line, lines !! (top - 1) = Some line ∧ blank line = true).
Proof.
  intros Hdash Hone.
  assert (gap_spans (find_columns dash_line) = []) as Hgaps.
  { destruct (find_columns dash_line) as [|c [|c' rest]]; done. }
  assert (∀ line, header_accepted line [] ↔ blank line = false) as Hacc.
  { intros line. unfold header_accepted, gap_pure. split; [by intros [? _]|].
    intros H. split; [done|]. by intros gap pos ?%elem_of_nil. }
  split; [by rewrite find_gaps_spec, Hgaps|].
  split; [intros line; reflexivity|].
  destruct (collect_header_lines_spec lines dash_line_idx
              (find_columns dash_line)) as (top & Htop & Hc & Hall & Hstop).
  { apply Nat.lt_le_incl. by eapply lookup_lt_Some. }
  rewrite Hgaps in Hall, Hstop. exists top. split; [done|]. split; [done|].
  split.
  - intros idx Hidx. destruct (Hall idx Hidx) as (line & Hl & Ha).
    exists line. split; [done|]. by destruct Ha.
  - destruct Hstop as [->|(line & Hl & Ha)]; [by left|]. right.
    exists line. split; [done|]. rewrite Hacc in Ha.
    by destruct (blank line).
Qed.

Lemma single_column_header_collection_witness :
  [py "free | text"; []; py "any -- thing"; py "at all"; py "  ----"] !! 4
    = Some (py "  ----") ∧
  length (find_columns (py "  ----")) = 1 ∧
  ∃ top,
    collect_header_lines
      [py "free | text"; []; py "any -- thing"; py "at all"; py "  ----"]
      4 (find_columns (py "  ----")) = Some (seq top (4 - top)).
Proof.
  split; [reflexivity|]. split; [reflexivity|].
  destruct (single_column_header_collection
              [py "free | text"; []; py "any -- thing"; py "at all";
               py "  ----"] 4 (py "  ----") eq_refl eq_refl)
    as (_ & _ & top & _ & H & _).
  exists top. exact H.
Defined.

(** ** The formatter in closed form *)

Lemma mapM_Some_lookup {A B} (f : A → option B) (l : list A) (k : list B) :
  length l = length k →
  (∀ i x y, l !! i = Some x → k !! i = Some y → f x = Some y) →
  mapM f l = Some k.
Proof.
  intros Hlen H. apply mapM_Some_2, Forall2_same_length_lookup_2; [done|].
  intros i x y Hx Hy. by eapply H.
Qed.

Lemma mapM_seq_Some {B} (f : nat → option B) (n : nat) (k : list B) :
  length k = n →
  (∀ i y, k !! i = Some y → f i = Some y) →
  mapM f (seq 0 n) = Some k.
Proof.
  intros Hlen H. apply mapM_Some_lookup; [by rewrite length_seq|].
  intros i x y [-> _]%lookup_seq Hy. by apply H.
Qed.

Lemma extract_multiline_headers_spec lines header_indices header_lines columns :
  mapM (λ idx, lines !! idx) header_indices = Some header_lines →
  extract_multiline_headers lines header_indices columns =
    Some ((λ col, (λ line, cell line col) <$> header_lines) <$> columns).
Proof.
  intros H%mapM_Some_1. unfold extract_multiline_headers.
  apply mapM_Some_fmap. intros col _.
  apply mapM_Some_lookup; [by rewrite length_fmap, (Forall2_length _ _ _ H)|].
  intros i idx text Hidx. rewrite list_lookup_fmap.
  destruct (Forall2_lookup_l _ _ _ _ _ H Hidx) as (line & Hline & ->).
  rewrite Hline. simpl. by intros [= <-].
Qed.

Lemma column_of_stripped_rows data_lines columns c (col : span) :
  columns !! c = Some col →
  column_of (stripped_rows (raw_rows data_lines columns)) c =
    Some ((λ line, cell line col) <$> data_lines).
Proof.
  intros Hc. unfold column_of, stripped_rows, raw_rows.
  rewrite <-list_fmap_compose.
  apply mapM_fmap_Some_fmap. intros line _. simpl.
  by rewrite !list_lookup_fmap, Hc.
Qed.

Lemma column_widths_spec header_lines data_lines columns :
  column_widths ((λ col, (λ line, cell line col) <$> header_lines) <$> columns)
                (stripped_rows (raw_rows data_lines columns)) (length columns)
  = Some (width_of header_lines data_lines <$> columns).
Proof.
  unfold column_widths. apply mapM_seq_Some; [by rewrite length_fmap|].
  intros i w. rewrite !list_lookup_fmap.
  destruct (columns !! i) as [col|] eqn:Hc; [|done]. simpl. intros [= <-].
  by rewrite (column_of_stripped_rows _ _ _ _ Hc).
Qed.

Lemma header_row_spec header_lines data_lines columns line_idx line :
  header_lines !! line_idx = Some line →
  header_row ((λ col, (λ line, cell line col) <$> header_lines) <$> columns)
             (width_of header_lines data_lines <$> columns)
             (length columns) line_idx
  = Some (rstrip (join [SPACE]
                    (header_parts header_lines data_lines columns line))).
Proof.
  intros Hline. unfold header_row.
  rewrite (mapM_seq_Some _ _ (header_parts header_lines data_lines columns line));
    [done | by unfold header_parts; rewrite length_fmap |].
  intros i part. unfold header_parts. rewrite !list_lookup_fmap.
  destruct (columns !! i) as [col|] eqn:Hc; [|done]. simpl. intros [= <-].
  by rewrite list_lookup_fmap, Hline.
Qed.

Lemma dash_row_spec header_lines data_lines columns :
  dash_row (width_of header_lines data_lines <$> columns) (length columns)
  = Some (join [SPACE] (dash_parts header_lines data_lines columns)).
Proof.
  unfold dash_row.
  rewrite (mapM_seq_Some _ _ (dash_parts header_lines data_lines columns));
    [done | by unfold dash_parts; rewrite length_fmap |].
  intros i part. unfold dash_parts. rewrite !list_lookup_fmap.
  destruct (columns !! i) as [col|] eqn:Hc; [|done]. simpl. by intros [= <-].
Qed.

Lemma data_row_spec header_lines data_lines columns line :
  data_row (justification_of data_lines <$> columns)
           (width_of header_lines data_lines <$> columns)
           (strip <$> ((λ col : span, extract_value line col.1 col.2) <$> columns))
  = Some (rstrip (join [SPACE]
                    (data_parts header_lines data_lines columns line))).
Proof.
  unfold data_row.
  rewrite (mapM_Some_lookup _ _ (data_parts header_lines data_lines columns line));
    [done | by unfold enumerate, data_parts;
              rewrite length_imap, !length_fmap |].
  intros i [i' val] part. unfold enumerate, data_parts.
  rewrite list_lookup_imap, !list_lookup_fmap.
  destruct (columns !! i) as [col|] eqn:Hc; [|done]. simpl.
  intros [= <- <-] [= <-]. by rewrite Hc.
Qed.

(** [process_table] returns the rendered table, provided the header
    indices are indices of [lines]. *)
Lemma process_table_spec lines header_indices header_lines dash_line_idx
    data_lines columns :
  mapM (λ idx, lines !! idx) header_indices = Some header_lines →
  process_table lines header_indices dash_line_idx data_lines columns
  = Some (render_table header_lines data_lines columns).
Proof.
  intros H. unfold process_table.
  rewrite (extract_multiline_headers_spec _ _ _ _ H). simpl.
  rewrite column_justifications_raw_rows. simpl.
  rewrite column_widths_spec. simpl.
  rewrite (mapM_seq_Some _ _
    ((λ line, rstrip (join [SPACE]
                        (header_parts header_lines data_lines columns line)))
       <$> header_lines)).
  2:{ rewrite length_fmap. symmetry. apply mapM_Some_1 in H.
      by apply Forall2_length in H. }
  2:{ intros i y. rewrite list_lookup_fmap.
      destruct (header_lines !! i) as [line|] eqn:Hl; [|done].
      simpl. intros [= <-]. by apply header_row_spec. }
  simpl. rewrite dash_row_spec. simpl.
  unfold stripped_rows, raw_rows. rewrite <-list_fmap_compose.
  rewrite (mapM_fmap_Some_fmap _ _
    (λ line, rstrip (join [SPACE]
                       (data_parts header_lines data_lines columns line)))).
  2:{ intros line _. apply data_row_spec. }
  done.
Qed.

Lemma width_of_no_data header_lines col :
  width_of header_lines [] col = max_len ((λ line, cell line col) <$> header_lines).
Proof. unfold width_of. simpl. unfold max_len at 2. simpl. lia. Qed.

(** The branch without data returns the rendered table as well. *)
Lemma header_only_table_spec lines header_indices header_lines columns :
  mapM (λ idx, lines !! idx) header_indices = Some header_lines →
  header_only_table lines header_indices columns
  = Some (render_table header_lines [] columns).
Proof.
  intros H. unfold header_only_table.
  rewrite (extract_multiline_headers_spec _ _ _ _ H). simpl.
  assert (max_len <$>
            ((λ col, (λ line, cell line col) <$> header_lines) <$> columns)
          = width_of header_lines [] <$> columns) as ->.
  { rewrite <-list_fmap_compose. apply list_fmap_ext. intros i col _.
    simpl. by rewrite width_of_no_data. }
  rewrite (mapM_seq_Some _ _
    ((λ line, rstrip (join [SPACE]
                        (header_parts header_lines [] columns line)))
       <$> header_lines)).
  2:{ rewrite length_fmap. symmetry. apply mapM_Some_1 in H.
      by apply Forall2_length in H. }
  2:{ intros i y. rewrite list_lookup_fmap.
      destruct (header_lines !! i) as [line|] eqn:Hl; [|done].
      simpl. intros [= <-]. by apply header_row_spec. }
  simpl. unfold render_table, dash_parts. simpl.
  by rewrite <-list_fmap_compose.
Qed.

(** ** The scanning loop in closed form *)

Lemma mapM_lookup_seq {A} (l : list A) (a n : nat) :
  a + n ≤ length l →
  mapM (λ idx, l !! idx) (seq a n) = Some (take n (drop a l)).
Proof.
  intros H. apply mapM_Some_lookup.
  { rewrite length_seq, length_take, length_drop. lia. }
  intros i idx y [-> Hi]%lookup_seq.
  rewrite lookup_take_lt, lookup_drop by done. by intros ->.
Qed.

Lemma length_collect_data_lines (rest : list str) :
  length (collect_data_lines rest) ≤ length rest.
Proof.
  induction rest as [|line rest IH]; simpl; [done|].
  destruct (blank line); simpl; [lia|].
  destruct (is_dash_line line); simpl; lia.
Qed.

Lemma main_step_spec lines i st line :
  lines !! i = Some line →
  (is_dash_line line = false ∧ main_step lines i st = Some (i + 1, st)) ∨
  (is_dash_line line = true ∧
   ∃ top,
     top ≤ i ∧
     collect_header_lines lines i (find_columns line)
       = Some (seq top (i - top)) ∧
     (∀ idx, top ≤ idx < i →
        ∃ l, lines !! idx = Some l ∧
             header_accepted l (gap_spans (find_columns line))) ∧
     (top = 0 ∨
      ∃ l, lines !! (top - 1) = Some l ∧
           ¬ header_accepted l (gap_spans (find_columns line))) ∧
     ((top = i ∧ main_step lines i st = Some (i + 1, print line st)) ∨
      (top < i ∧
       main_step lines i st =
         Some (i + 1 + length (collect_data_lines (drop (i + 1) lines)),
               table_state lines top i
                 (collect_data_lines (drop (i + 1) lines))
                 (find_columns line) st)))).
Proof.
  intros Hline. unfold main_step. rewrite Hline. simpl.
  destruct (is_dash_line line) eqn:Hdash; [right | by left].
  split; [done|].
  assert (i < length lines) as Hi by by eapply lookup_lt_Some.
  destruct (collect_header_lines_spec lines i (find_columns line))
    as (top & Htop & Hc & Hall & Hstop); [lia|].
  exists top. rewrite Hc. simpl. do 4 (split; [done|]).
  destruct (decide (top = i)) as [->|Hne].
  { left. split; [done|]. by rewrite Nat.sub_diag. }
  right. split; [lia|].
  assert (seq top (i - top) ≠ []) as Hnil.
  { intros E%(f_equal length). rewrite length_seq in E. simpl in E. lia. }
  rewrite bool_decide_eq_false_2 by done.
  assert (seq top (i - top) !! 0 = Some top) as Hfirst.
  { rewrite lookup_seq_lt by lia. f_equal. lia. }
  assert (mapM (λ idx, lines !! idx) (seq top (i - top))
          = Some (take (i - top) (drop top lines))) as Hhl.
  { apply mapM_lookup_seq. lia. }
  set (data_lines := collect_data_lines (drop (i + 1) lines)).
  unfold table_state. case_bool_decide as Hdata.
  - rewrite (process_table_spec _ _ _ _ _ _ Hhl). simpl. rewrite Hfirst. simpl.
    by replace (i + 1 + length data_lines - (i + 1)) with (length data_lines)
      by lia.
  - rewrite (header_only_table_spec _ _ _ _ Hhl). simpl. rewrite Hfirst. simpl.
    assert (data_lines = []) as -> by by destruct (decide (data_lines = [])).
    simpl. by rewrite union_empty_r_L.
Qed.

Lemma main_step_total lines i st :
  i < length lines →
  ∃ i' st', main_step lines i st = Some (i', st') ∧ i < i' ≤ length lines.
Proof.
  intros Hi. destruct (lookup_lt_is_Some_2 lines i Hi) as [line Hline].
  destruct (main_step_spec lines i st line Hline)
    as [[_ ->]|(_ & top & _ & _ & _ & _ & [[_ ->]|[_ ->]])].
  - eexists _, _. split; [done|]. lia.
  - eexists _, _. split; [done|]. lia.
  - eexists _, _. split; [done|].
    pose proof (length_collect_data_lines (drop (i + 1) lines)) as H.
    rewrite length_drop in H. lia.
Qed.

Lemma main_loop_total fuel lines i st :
  i ≤ length lines → length lines - i ≤ fuel →
  is_Some (main_loop fuel lines i st).
Proof.
  revert i st. induction fuel as [|fuel IH]; intros i st Hi Hfuel.
  - simpl. rewrite bool_decide_eq_false_2 by lia. done.
  - simpl. case_bool_decide as Hlt; [|done].
    destruct (main_step_total lines i st Hlt) as (i' & st' & -> & Hi').
    apply IH; lia.
Qed.

Lemma output_lines_total lines st : is_Some (output_lines lines st).
Proof.
  unfold output_lines.
  destruct (mapM_is_Some_2 (output_at lines st) (seq 0 (length lines)))
    as [blocks ->]; [|done].
  apply Forall_forall. intros i [_ Hi]%elem_of_seq. simpl.
  unfold output_at. destruct (output_map st !! i); [done|].
  case_bool_decide; [done|].
  destruct (lookup_lt_is_Some_2 lines i) as [line ->]; [lia|]. done.
Qed.

Lemma transform_total lines : is_Some (transform lines).
Proof.
  unfold transform.
  destruct (main_loop_total (length lines) lines 0 (State ∅ ∅ []))
    as [st ->]; [lia..|]. simpl.
  by destruct (output_lines_total lines st) as [out ->].
Qed.

(** C9. The transform is total: on every input text it returns an output,
    no subscript is ever out of range and the scanning loop ends within
    [len(lines)] iterations; a line that ends before a column starts gives
    an empty cell. *)
Theorem main_total :
  (∀ content, ∃ out, main content = Some out) ∧
  (∀ lines, ∃ out, transform lines = Some out) ∧
  (∀ line start end_,
     extract_value line (length line + start) end_ = [] ∧
     cell line (length line + start, end_) = []).
Proof.
  split; [|split].
  - intros content. unfold main.
    destruct (transform_total (read_lines content)) as [out ->]. by eexists.
  - intros lines. apply transform_total.
  - intros line start end_. unfold cell, extract_value. simpl.
    by rewrite bool_decide_eq_true_2 by lia.
Qed.

(** ** Column widths (C5) *)

Lemma length_ljust (s : str) w : length (ljust s w) = max w (length s).
Proof. unfold ljust. rewrite length_app, length_replicate. lia. Qed.

Lemma length_rjust (s : str) w : length (rjust s w) = max w (length s).
Proof. unfold rjust. rewrite length_app, length_replicate. lia. Qed.

Lemma max_len_ge (ts : list str) t : t ∈ ts → length t ≤ max_len ts.
Proof.
  intros H. apply max_list_elem_of_le, list_elem_of_fmap. by exists t.
Qed.

Lemma max_len_attained (ts : list str) :
  max_len ts = 0 ∨ ∃ t, t ∈ ts ∧ length t = max_len ts.
Proof.
  destruct ts as [|t0 ts]; [by left|]. right.
  assert (max_list (length <$> t0 :: ts) ∈ length <$> t0 :: ts) as H
    by by apply max_list_elem_of.
  apply list_elem_of_fmap in H as (t & Ht & Hin). exists t. by split.
Qed.

Lemma cell_le_width header_lines data_lines col line :
  line ∈ header_lines ++ data_lines →
  length (cell line col) ≤ width_of header_lines data_lines col.
Proof.
  unfold width_of. intros [H|H]%elem_of_app.
  - etrans; [|apply Nat.le_max_l].
    apply max_len_ge, list_elem_of_fmap. by exists line.
  - etrans; [|apply Nat.le_max_r].
    apply max_len_ge, list_elem_of_fmap. by exists line.
Qed.

Lemma width_attained header_lines data_lines col :
  width_of header_lines data_lines col = 0 ∨
  ∃ line, line ∈ header_lines ++ data_lines ∧
          length (cell line col) = width_of header_lines data_lines col.
Proof.
  unfold width_of.
  set (hs := (λ line, cell line col) <$> header_lines).
  set (ds := (λ line, cell line col) <$> data_lines).
  destruct (Nat.max_spec_le (max_len hs) (max_len ds)) as [[Hle ->]|[Hle ->]].
  - destruct (max_len_attained ds) as [?|(t & Ht & Hlen)]; [by left|]. right.
    apply list_elem_of_fmap in Ht as (line & -> & Hin). exists line.
    split; [apply elem_of_app; by right | done].
  - destruct (max_len_attained hs) as [?|(t & Ht & Hlen)]; [by left|]. right.
    apply list_elem_of_fmap in Ht as (line & -> & Hin). exists line.
    split; [apply elem_of_app; by left | done].
Qed.

(** C5. In both branches of [main] the table comes out at the widths of
    the contract: the width of a column is the longest trimmed header or
    data cell of that column (0 when there is none); the separator has a
    run of dashes of that length, every cell is padded to exactly that
    length, so no cell is cut, and the width is the length of some cell
    unless it is 0. *)
Theorem column_width_contract lines header_indices header_lines dash_line_idx
    data_lines columns c col :
  mapM (λ idx, lines !! idx) header_indices = Some header_lines →
  columns !! c = Some col →
  ∃ header_texts new_widths w,
    extract_multiline_headers lines header_indices columns = Some header_texts ∧
    column_widths header_texts (stripped_rows (raw_rows data_lines columns))
                  (length columns) = Some new_widths ∧
    (data_lines = [] → max_len <$> header_texts = new_widths) ∧
    new_widths !! c = Some w ∧
    w = max (max_list ((λ line, length (strip (extract_value line col.1 col.2)))
                         <$> header_lines))
            (max_list ((λ line, length (strip (extract_value line col.1 col.2)))
                         <$> data_lines)) ∧
    (if bool_decide (data_lines ≠ [])
     then process_table lines header_indices dash_line_idx data_lines columns
     else header_only_table lines header_indices columns)
      = Some (render_table header_lines data_lines columns) ∧
    dash_parts header_lines data_lines columns !! c = Some (replicate w DASH) ∧
    (∀ line, line ∈ header_lines →
       ∃ part, header_parts header_lines data_lines columns line !! c = Some part ∧
               length part = w ∧ cell line col `prefix_of` part) ∧
    (∀ line, line ∈ data_lines →
       ∃ part, data_parts header_lines data_lines columns line !! c = Some part ∧
               length part = w ∧
               (cell line col `prefix_of` part ∨ cell line col `suffix_of` part)) ∧
    (∀ line, line ∈ header_lines ++ data_lines → length (cell line col) ≤ w) ∧
    (w = 0 ∨
     ∃ line, line ∈ header_lines ++ data_lines ∧ length (cell line col) = w).
Proof.
  intros Hhl Hc.
  exists ((λ col, (λ line, cell line col) <$> header_lines) <$> columns),
         (width_of header_lines data_lines <$> columns),
         (width_of header_lines data_lines col).
  split; [by apply extract_multiline_headers_spec|].
  split; [apply column_widths_spec|].
  split.
  { intros ->. rewrite <-list_fmap_compose. apply list_fmap_ext.
    intros i col' _. simpl. by rewrite width_of_no_data. }
  split; [by rewrite list_lookup_fmap, Hc|].
  split.
  { unfold width_of, max_len, cell. by rewrite <-!list_fmap_compose. }
  split.
  { case_bool_decide as Hd.
    - by apply process_table_spec.
    - assert (data_lines = []) as -> by by destruct (decide (data_lines = [])).
      by apply header_only_table_spec. }
  split; [by unfold dash_parts; rewrite list_lookup_fmap, Hc|].
  split; [|split; [|split; [apply cell_le_width | apply width_attained]]].
  - intros line Hin. eexists.
    split; [by unfold header_parts; rewrite list_lookup_fmap, Hc|].
    split; [|by apply prefix_app_r].
    rewrite length_ljust.
    assert (length (cell line col) ≤ width_of header_lines data_lines col)
      by (apply cell_le_width, elem_of_app; by left).
    lia.
  - intros line Hin. eexists.
    split; [by unfold data_parts; rewrite list_lookup_fmap, Hc|]. simpl.
    assert (length (cell line col) ≤ width_of header_lines data_lines col)
      by (apply cell_le_width, elem_of_app; by right).
    case_bool_decide.
    + rewrite length_rjust. split; [lia|]. right. by apply suffix_app_r.
    + rewrite length_ljust. split; [lia|]. left. by apply prefix_app_r.
Qed.

Lemma column_width_contract_witness :
  ∃ header_texts new_widths w,
    extract_multiline_headers
      [py "FIRST       AGE"; py "NAME           "; py "----------  ---";
       py "Al           30"; py "Barbara       5"]
      [0; 1] [(0, 10); (12, 15)] = Some header_texts ∧
    column_widths header_texts
      (stripped_rows (raw_rows [py "Al           30"; py "Barbara       5"]
                               [(0, 10); (12, 15)])) 2 = Some new_widths ∧
    new_widths !! 0 = Some w ∧ w = 7.
Proof.
  destruct (column_width_contract
              [py "FIRST       AGE"; py "NAME           "; py "----------  ---";
               py "Al           30"; py "Barbara       5"]
              [0; 1] [py "FIRST       AGE"; py "NAME           "] 2
              [py "Al           30"; py "Barbara       5"]
              [(0, 10); (12, 15)] 0 (0, 10) eq_refl eq_refl)
    as (header_texts & new_widths & w & H1 & H2 & _ & H3 & H4 & _).
  exists header_texts, new_widths, w. repeat split; [exact H1|exact H2|exact H3|].
  rewrite H4. reflexivity.
Defined.

(** ** Joining and trimming (C6) *)

Lemma right_trimmed_rstrip (s : str) : right_trimmed (rstrip s).
Proof. apply rstrip_idemp. Qed.

Lemma right_trimmed_last (s : str) c :
  right_trimmed s → last s = Some c → isspace c = false.
Proof. intros <-. apply rstrip_last. Qed.

Lemma join_snoc sep (parts : list str) (p : str) :
  parts ≠ [] → join sep (parts ++ [p]) = join sep parts ++ sep ++ p.
Proof.
  induction parts as [|q [|q' parts] IH]; intros Hne; [done..|].
  change (join sep ((q :: q' :: parts) ++ [p]))
    with (q ++ sep ++ join sep ((q' :: parts) ++ [p])).
  rewrite IH by done.
  change (join sep (q :: q' :: parts)) with (q ++ sep ++ join sep (q' :: parts)).
  by rewrite <-!app_assoc.
Qed.

Lemma dash_row_right_trimmed (widths : list nat) w :
  last widths = Some w → 0 < w →
  right_trimmed (join [SPACE] ((λ w, replicate w DASH) <$> widths)).
Proof.
  intros (ws & ->)%last_Some Hw. rewrite fmap_app. simpl.
  destruct w as [|w]; [lia|].
  assert (replicate (S w) DASH = replicate w DASH ++ [DASH]) as ->.
  { by rewrite <-replicate_S_end. }
  unfold right_trimmed. destruct ws as [|w0 ws].
  - simpl. by apply rstrip_snoc.
  - rewrite join_snoc by done. rewrite !app_assoc. by apply rstrip_snoc.
Qed.

Lemma dash_row_ends_in_space (widths : list nat) :
  last widths = Some 0 → 2 ≤ length widths →
  last (join [SPACE] ((λ w, replicate w DASH) <$> widths)) = Some SPACE.
Proof.
  intros (ws & ->)%last_Some Hlen. rewrite length_app in Hlen. simpl in Hlen.
  rewrite fmap_app. simpl.
  rewrite join_snoc by (destruct ws; [simpl in *; lia|done]).
  rewrite app_nil_r. apply last_snoc.
Qed.

(** C6, as stated, fails on the separator: with an empty last column the
    joined runs of dashes end in the joining space, which stays. *)
Lemma separator_not_right_trimmed :
  ¬ (∀ lines header_indices header_lines dash_line_idx data_lines columns
       block rendered,
       mapM (λ idx, lines !! idx) header_indices = Some header_lines →
       process_table lines header_indices dash_line_idx data_lines columns
         = Some block →
       rendered ∈ block → right_trimmed rendered).
Proof.
  intros H.
  specialize (H [py "A"; py "- -"; py "1"] [0] [py "A"] 1 [py "1"]
                (find_columns (py "- -")) [py "A"; py "- "; py "1"] (py "- ")
                eq_refl eq_refl).
  assert (py "- " ∈ [py "A"; py "- "; py "1"]) as Hin by (right; left).
  specialize (H Hin). vm_compute in H. discriminate H.
Qed.

(** C6, amended. Every rendered line joins the cells of the columns with
    exactly one space between neighbours; header lines and data lines are
    then right-trimmed; the separator is written as joined: it has no
    trailing whitespace when the last column has a positive width, and
    when the last column has width 0 it ends in the joining space, so it
    is not right-trimmed, if there are at least two columns, and it is the
    empty line if that column is the only one. *)
Theorem rendered_lines_joined lines header_indices header_lines dash_line_idx
    data_lines columns :
  mapM (λ idx, lines !! idx) header_indices = Some header_lines →
  ∃ header_out dash_out data_out,
    (if bool_decide (data_lines ≠ [])
     then process_table lines header_indices dash_line_idx data_lines columns
     else header_only_table lines header_indices columns)
      = Some (header_out ++ [dash_out] ++ data_out) ∧
    Forall2 (λ line rendered,
               ∃ parts, length parts = length columns ∧
                        parts = header_parts header_lines data_lines columns line ∧
                        rendered = rstrip (join [SPACE] parts))
            header_lines header_out ∧
    Forall2 (λ line rendered,
               ∃ parts, length parts = length columns ∧
                        parts = data_parts header_lines data_lines columns line ∧
                        rendered = rstrip (join [SPACE] parts))
            data_lines data_out ∧
    (∃ parts, length parts = length columns ∧
              parts = dash_parts header_lines data_lines columns ∧
              dash_out = join [SPACE] parts) ∧
    Forall right_trimmed (header_out ++ data_out) ∧
    (∀ col, last columns = Some col →
            0 < width_of header_lines data_lines col →
            right_trimmed dash_out) ∧
    (∀ col, last columns = Some col →
            width_of header_lines data_lines col = 0 →
            if bool_decide (2 ≤ length columns)
            then last dash_out = Some SPACE ∧ ¬ right_trimmed dash_out
            else dash_out = []).
Proof.
  intros Hhl.
  exists ((λ line, rstrip (join [SPACE]
                             (header_parts header_lines data_lines columns line)))
            <$> header_lines),
         (join [SPACE] (dash_parts header_lines data_lines columns)),
         ((λ line, rstrip (join [SPACE]
                             (data_parts header_lines data_lines columns line)))
            <$> data_lines).
  split.
  { case_bool_decide as Hd.
    - by apply process_table_spec.
    - assert (data_lines = []) as -> by by destruct (decide (data_lines = [])).
      by apply header_only_table_spec. }
  split; [|split; [|split; [|split; [|split]]]].
  - apply Forall2_fmap_r, Forall_Forall2_diag, Forall_forall. intros line _.
    eexists. split; [|done]. unfold header_parts. by rewrite length_fmap.
  - apply Forall2_fmap_r, Forall_Forall2_diag, Forall_forall. intros line _.
    eexists. split; [|done]. unfold data_parts. by rewrite length_fmap.
  - eexists. split; [|done]. unfold dash_parts. by rewrite length_fmap.
  - apply Forall_app. split; apply Forall_fmap, Forall_forall; intros line _;
      apply right_trimmed_rstrip.
  - intros col Hlast Hw. unfold dash_parts.
    rewrite (list_fmap_compose (width_of header_lines data_lines)
                               (λ w, replicate w DASH)).
    apply (dash_row_right_trimmed _ (width_of header_lines data_lines col));
      [|done].
    by rewrite fmap_last, Hlast.
  - intros col Hlast Hw. unfold dash_parts. case_bool_decide as Hlen.
    + rewrite (list_fmap_compose (width_of header_lines data_lines)
                                 (λ w, replicate w DASH)).
      assert (last (join [SPACE]
                      ((λ w, replicate w DASH)
                         <$> (width_of header_lines data_lines <$> columns)))
              = Some SPACE) as Hsp.
      { apply dash_row_ends_in_space; [|by rewrite length_fmap].
        by rewrite fmap_last, Hlast, <-Hw. }
      split; [done|]. intros Ht.
      by pose proof (right_trimmed_last _ _ Ht Hsp).
    + apply last_Some in Hlast as [cs ->]. rewrite length_app in Hlen.
      simpl in Hlen. destruct cs as [|c cs]; [|simpl in Hlen; lia].
      simpl. by rewrite Hw.
Qed.

Lemma rendered_lines_joined_witness :
  ∃ header_out dash_out data_out,
    process_table [py "NAME    AGE"; py "------  ---"; py "Bob       5"]
                  [0] 1 [py "Bob       5"] [(0, 6); (8, 11)]
      = Some (header_out ++ [dash_out] ++ data_out) ∧
    Forall right_trimmed (header_out ++ data_out).
Proof.
  destruct (rendered_lines_joined
              [py "NAME    AGE"; py "------  ---"; py "Bob       5"]
              [0] [py "NAME    AGE"] 1 [py "Bob       5"] [(0, 6); (8, 11)]
              eq_refl)
    as (header_out & dash_out & data_out & H1 & _ & _ & _ & H2 & _).
  exists header_out, dash_out, data_out. split; [exact H1 | exact H2].
Defined.

(** ** Pass-through of a separator without header (C1) *)

(** The branch "No valid header found, pass through" prints the separator
    at once and leaves both accumulators as they are. *)
Lemma main_step_headerless lines i st line :
  lines !! i = Some line → is_dash_line line = true →
  collect_header_lines lines i (find_columns line) = Some [] →
  main_step lines i st = Some (i + 1, print line st).
Proof.
  intros Hline Hdash Hc. unfold main_step. by rewrite Hline; simpl;
    rewrite Hdash, Hc.
Qed.

(** C1 at the input [x], blank line, [---]: the separator has no header
    line above it; it is printed during the scan, before any other line,
    and again by the closing loop, since it was never marked as consumed. *)
Theorem headerless_separator_printed_twice :
  collect_header_lines [py "x"; []; py "---"] 2 (find_columns (py "---"))
    = Some [] ∧
  (∃ st, main_loop 3 [py "x"; []; py "---"] 0 (State ∅ ∅ []) = Some st ∧
         stdout st = [py "---"] ∧ (2 ∉ consumed st) ∧
         output_map st !! 2 = None) ∧
  transform [py "x"; []; py "---"]
    = Some [py "---"; py "x"; []; py "---"] ∧
  main (py "x" ++ [NL; NL] ++ py "---" ++ [NL])
    = Some (py "---" ++ [NL] ++ py "x" ++ [NL; NL] ++ py "---" ++ [NL]).
Proof.
  split; [reflexivity|]. split; [|split; vm_compute; reflexivity].
  eexists. split; [vm_compute; reflexivity|]. simpl.
  split; [reflexivity|]. split; [|reflexivity]. apply not_elem_of_empty.
Qed.

(** ** Overlapping tables (C2) *)

(** C2 at an input with two separators, the second right below the data
    line of the first table: the data line [2], consumed by the first
    table, is collected again as the header of the second one and is
    rendered in both blocks. In the second input the header walk of the
    later table reaches the first line, and its block takes the place of
    the block of the earlier table in [output_map]. *)
Theorem later_table_collects_consumed_lines :
  (∃ st,
     main_step [py "AAA B"; py "--- -"; py "1   2"; py "- ---"; py "3 4"]
               1 (State ∅ ∅ []) = Some (3, st) ∧
     2 ∈ consumed st ∧
     output_map st !! 0 = Some [py "AAA B"; py "--- -"; py "1   2"]) ∧
  collect_header_lines
    [py "AAA B"; py "--- -"; py "1   2"; py "- ---"; py "3 4"]
    3 (find_columns (py "- ---")) = Some [2] ∧
  transform [py "AAA B"; py "--- -"; py "1   2"; py "- ---"; py "3 4"]
    = Some [py "AAA B"; py "--- -"; py "1   2"; py "1 2"; py "- -"; py "3 4"] ∧
  (∃ st st',
     main_step [py "A   B"; py "-   -"; py "1   2"; py "-----"; py "3   4"]
               1 (State ∅ ∅ []) = Some (3, st) ∧
     output_map st !! 0 = Some [py "A B"; py "- -"; py "1 2"] ∧
     main_step [py "A   B"; py "-   -"; py "1   2"; py "-----"; py "3   4"]
               3 st = Some (5, st') ∧
     output_map st' !! 0
       = Some [py "A   B"; py "-   -"; py "1   2"; py "-----"; py "3   4"]) ∧
  transform [py "A   B"; py "-   -"; py "1   2"; py "-----"; py "3   4"]
    = Some [py "A   B"; py "-   -"; py "1   2"; py "-----"; py "3   4"].
Proof.
  split; [|split; [reflexivity|split; [vm_compute; reflexivity|split]]].
  - eexists. split; [vm_compute; reflexivity|].
    split; [|vm_compute; reflexivity].
    apply (bool_decide_unpack (2 ∈ _)). vm_compute. exact I.
  - eexists _, _. split; [vm_compute; reflexivity|].
    split; [vm_compute; reflexivity|].
    split; vm_compute; reflexivity.
  - vm_compute; reflexivity.
Qed.

(** ** Running the transform twice (C3) *)

(** C3, as stated, fails: after the first run the columns are narrower, and
    a line above the header that had text in the old gap can fit the new
    gaps; the second run takes it as a header line and cuts it. No
    separator without header and no overlap of tables is involved. *)
Lemma transform_not_idempotent :
  ¬ (∀ lines out, transform lines = Some out → transform out = Some out) ∧
  ¬ (∀ content out, main content = Some out → main out = Some out).
Proof.
  split; intros H.
  - specialize (H [py "a  x"; py "A   B"; py "--- ---"; py "1   2"]
                  [py "a  x"; py "A B"; py "- -"; py "1 2"]).
    assert (transform [py "a  x"; py "A   B"; py "--- ---"; py "1   2"]
            = Some [py "a  x"; py "A B"; py "- -"; py "1 2"]) as H1
      by (vm_compute; reflexivity).
    specialize (H H1). vm_compute in H. discriminate H.
  - specialize (H (py "a  x" ++ [NL] ++ py "A   B" ++ [NL] ++ py "--- ---"
                     ++ [NL] ++ py "1   2" ++ [NL])
                  (py "a  x" ++ [NL] ++ py "A B" ++ [NL] ++ py "- -"
                     ++ [NL] ++ py "1 2" ++ [NL])).
    assert (main (py "a  x" ++ [NL] ++ py "A   B" ++ [NL] ++ py "--- ---"
                    ++ [NL] ++ py "1   2" ++ [NL])
            = Some (py "a  x" ++ [NL] ++ py "A B" ++ [NL] ++ py "- -"
                      ++ [NL] ++ py "1 2" ++ [NL])) as H1
      by (vm_compute; reflexivity).
    specialize (H H1). vm_compute in H. discriminate H.
Qed.

(** A column whose cells are all empty is rendered at width 0: its run of
    dashes vanishes from the separator, the two joining spaces meet, and
    the second run sees one column less. *)
Example empty_column_changes_geometry :
  transform [py "A   C"; py "- - -"; py "1   2"]
    = Some [py "A  C"; py "-  -"; py "1  2"] ∧
  transform [py "A  C"; py "-  -"; py "1  2"]
    = Some [py "A C"; py "- -"; py "1 2"].
Proof. split; vm_compute; reflexivity. Qed.

(** *** The scanning loop, step by step *)

Lemma main_loop_unfold fuel lines i st :
  i < length lines →
  main_loop (S fuel) lines i st =
    match main_step lines i st with
    | Some (i', st') => main_loop fuel lines i' st'
    | None => None
    end.
Proof. intros H. simpl. by rewrite bool_decide_eq_true_2. Qed.

Lemma main_loop_end fuel lines i st :
  length lines ≤ i → main_loop fuel lines i st = Some st.
Proof.
  intros H. destruct fuel; simpl; by rewrite bool_decide_eq_false_2 by lia.
Qed.

(** Lines that are not separators are stepped over. *)
Lemma main_loop_skip lines m fuel i st :
  (∀ k, i ≤ k < i + m →
        ∃ line, lines !! k = Some line ∧ is_dash_line line = false) →
  main_loop (m + fuel) lines i st = main_loop fuel lines (i + m) st.
Proof.
  revert i. induction m as [|m IH]; intros i H.
  { by rewrite Nat.add_0_r. }
  destruct (H i) as (line & Hline & Hdash); [lia|].
  change (S m + fuel) with (S (m + fuel)).
  rewrite main_loop_unfold by by eapply lookup_lt_Some.
  destruct (main_step_spec lines i st line Hline) as [[_ ->]|[? _]];
    [|congruence].
  rewrite IH; [f_equal; lia|]. intros k Hk. apply H. lia.
Qed.

Lemma collect_data_lines_app (data_lines post : list str) :
  Forall (λ line, blank line = false ∧ is_dash_line line = false) data_lines →
  (∀ b, head post = Some b → blank b = true) →
  collect_data_lines (data_lines ++ post) = data_lines.
Proof.
  intros H Hpost. induction H as [|line rest [Hb Hd] _ IH]; simpl.
  - destruct post as [|b post]; [done|]. simpl. by rewrite (Hpost b).
  - by rewrite Hb, Hd, IH.
Qed.

Lemma mapM_seq_consumed (f : nat → option (list str)) (a m : nat) :
  (∀ i, a ≤ i < a + m → f i = Some []) →
  mapM f (seq a m) = Some (replicate m []).
Proof.
  intros H. apply mapM_Some_lookup.
  { by rewrite length_seq, length_replicate. }
  intros i x y [-> Hi]%lookup_seq [-> _]%lookup_replicate. apply H. lia.
Qed.

Lemma mapM_seq_untouched (f : nat → option (list str)) (a : nat)
    (text : list str) :
  (∀ i line, text !! i = Some line → f (a + i) = Some [line]) →
  mapM f (seq a (length text)) = Some ((λ line, [line]) <$> text).
Proof.
  intros H. apply mapM_Some_lookup.
  { by rewrite length_seq, length_fmap. }
  intros i x y [-> Hi]%lookup_seq. rewrite list_lookup_fmap.
  destruct (text !! i) as [line|] eqn:Hl; [|done]. simpl. intros [= <-].
  by apply H.
Qed.

Lemma mapM_app_Some {A B} (f : A → option B) (l1 l2 : list A)
    (k1 k2 : list B) :
  mapM f l1 = Some k1 → mapM f l2 = Some k2 →
  mapM f (l1 ++ l2) = Some (k1 ++ k2).
Proof.
  intros H1%mapM_Some_1 H2%mapM_Some_1. by apply mapM_Some_2, Forall2_app.
Qed.

Lemma concat_replicate_nil {A} (m : nat) : concat (replicate m ([] : list A)) = [].
Proof. induction m; simpl; done. Qed.

Lemma concat_singletons {A} (l : list A) : concat ((λ x, [x]) <$> l) = l.
Proof. induction l as [|x l IH]; simpl; [done|]. by f_equal. Qed.

Lemma mapM_cons_unfold {A B} (f : A → option B) (x : A) (l : list A) :
  mapM f (x :: l) = y ← f x; k ← mapM f l; mret (y :: k).
Proof. done. Qed.

(** *** The geometry of a rendered table *)

Lemma extract_value_take_drop line start end_ :
  extract_value line start end_ = take (end_ - start) (drop start line).
Proof.
  unfold extract_value, slice. case_bool_decide as H.
  - by rewrite drop_ge, take_nil.
  - destruct (decide (end_ ≤ length line)) as [Hle|Hgt].
    + by rewrite Nat.min_l.
    + rewrite Nat.min_r by lia.
      by rewrite !take_ge by (rewrite length_drop; lia).
Qed.

Lemma join_cons sep (p : str) (parts : list str) :
  parts ≠ [] → join sep (p :: parts) = p ++ sep ++ join sep parts.
Proof. by destruct parts. Qed.

Lemma find_columns_from_run n rest i st :
  find_columns_from (replicate n DASH ++ rest) i (Some st)
  = find_columns_from rest (i + n) (Some st).
Proof.
  revert i. induction n as [|n IH]; intros i; simpl.
  - by rewrite Nat.add_0_r.
  - rewrite IH. f_equal. lia.
Qed.

Lemma find_columns_from_dashes a (widths : list nat) :
  Forall (λ w, 0 < w) widths →
  find_columns_from (join [SPACE] ((λ w, replicate w DASH) <$> widths)) a None
  = spans_from a widths.
Proof.
  intros H. revert a. induction H as [|w widths Hw _ IH]; intros a; [done|].
  destruct w as [|w]; [lia|].
  destruct widths as [|w2 widths].
  - simpl. rewrite <-(app_nil_r (replicate w DASH)), find_columns_from_run.
    simpl. do 2 f_equal. lia.
  - rewrite fmap_cons, join_cons by done. simpl replicate.
    rewrite <-app_comm_cons.
    change (find_columns_from (DASH :: ?r) a None)
      with (find_columns_from r (S a) (Some a)).
    rewrite find_columns_from_run. simpl app.
    change (find_columns_from (SPACE :: ?r) ?i (Some a))
      with ((a, i) :: find_columns_from r (S i) None).
    rewrite IH.
    change (spans_from a (S w :: ?l))
      with ((a, a + S w) :: spans_from (a + S w + 1) l).
    f_equal; [f_equal; lia | f_equal; lia].
Qed.

Lemma find_columns_dash_row (widths : list nat) :
  Forall (λ w, 0 < w) widths →
  find_columns (join [SPACE] ((λ w, replicate w DASH) <$> widths))
  = spans_from 0 widths.
Proof. apply find_columns_from_dashes. Qed.

Lemma length_spans_from a (widths : list nat) :
  length (spans_from a widths) = length widths.
Proof.
  revert a. induction widths as [|w widths IH]; intros a; simpl; [done|].
  by rewrite IH.
Qed.

(** Where the part of a column lies in a joined row whose parts have the
    widths of the columns. *)
Lemma join_span (parts : list str) (widths : list nat) a i s e (p : str) :
  Forall2 (λ (p : str) w, length p = w) parts widths →
  spans_from a widths !! i = Some (s, e) → parts !! i = Some p →
  ∃ pre post,
    join [SPACE] parts = pre ++ p ++ post ∧
    s = a + length pre ∧ e = s + length p ∧
    (i + 1 < length parts → ∃ post', post = SPACE :: post').
Proof.
  intros H. revert a i. induction H as [|p0 w0 parts widths Hp0 H IH];
    intros a i Hs Hp; [done|].
  destruct i as [|i]; simpl in Hs, Hp.
  - injection Hs as <- <-. injection Hp as ->.
    destruct parts as [|p1 parts].
    + exists [], []. simpl. rewrite app_nil_r.
      split; [done|]. split; [lia|]. split; [lia|]. intros; lia.
    + exists [], ([SPACE] ++ join [SPACE] (p1 :: parts)).
      rewrite join_cons by done. simpl.
      split; [done|]. split; [lia|]. split; [lia|]. intros _. by eexists.
  - destruct (IH _ _ Hs Hp) as (pre & post & Hj & -> & -> & Hpost).
    assert (parts ≠ []) as Hne by (intros ->; done).
    exists (p0 ++ [SPACE] ++ pre), post.
    rewrite join_cons, Hj by done.
    split; [by rewrite <-!app_assoc|].
    split; [rewrite !length_app; simpl; lia|].
    split; [done|]. intros Hlt. apply Hpost. simpl in Hlt. lia.
Qed.

Lemma join_extract (parts : list str) (widths : list nat) i s e (p : str) :
  Forall2 (λ (p : str) w, length p = w) parts widths →
  spans_from 0 widths !! i = Some (s, e) → parts !! i = Some p →
  extract_value (join [SPACE] parts) s e = p.
Proof.
  intros H Hs Hp.
  destruct (join_span _ _ _ _ _ _ _ H Hs Hp) as (pre & post & -> & -> & -> & _).
  rewrite extract_value_take_drop. simpl.
  rewrite drop_app_length.
  replace (length pre + length p - length pre) with (length p) by lia.
  by rewrite take_app_length.
Qed.

(** *** Cells of a rendered row *)

Lemma lstrip_app_nonblank (s t : str) :
  lstrip s ≠ [] → lstrip (s ++ t) = lstrip s ++ t.
Proof.
  induction s as [|c s IH]; simpl; [done|].
  destruct (isspace c); [apply IH | done].
Qed.

Lemma strip_app_spaces (s ws : str) :
  Forall (λ c, isspace c = true) ws → strip (s ++ ws) = strip s.
Proof.
  intros Hws. unfold strip. destruct (decide (lstrip s = [])) as [E|E].
  - rewrite E, rstrip_nil.
    assert (lstrip (s ++ ws) = []) as ->; [|done].
    apply lstrip_nil_iff, Forall_app. split; [by apply lstrip_nil_iff | done].
  - by rewrite lstrip_app_nonblank, rstrip_spaces.
Qed.

Lemma strip_spaces_app (ws s : str) :
  Forall (λ c, isspace c = true) ws → strip (ws ++ s) = strip s.
Proof. intros Hws. unfold strip. by rewrite lstrip_spaces. Qed.

Lemma rstrip_cons_nonspace c (s : str) :
  isspace c = false → ∃ s', rstrip (c :: s) = c :: s'.
Proof.
  intros Hc. destruct (rstrip_split (c :: s)) as [ws [E Hws]].
  destruct (rstrip (c :: s)) as [|d s'].
  - simpl in E. subst ws. apply Forall_cons_1 in Hws as [? _]. congruence.
  - injection E as <- _. by eexists.
Qed.

Lemma lstrip_strip (s : str) : lstrip (strip s) = strip s.
Proof.
  unfold strip. destruct (lstrip s) as [|c t] eqn:E; [done|].
  apply lstrip_head in E.
  destruct (rstrip_cons_nonspace c t E) as [s' ->]. by apply lstrip_id.
Qed.

Lemma rstrip_strip (s : str) : rstrip (strip s) = strip s.
Proof. apply rstrip_idemp. Qed.

Lemma strip_idemp (s : str) : strip (strip s) = strip s.
Proof. unfold strip at 1. by rewrite lstrip_strip, rstrip_strip. Qed.

Lemma Forall_isspace_replicate n :
  Forall (λ c, isspace c = true) (replicate n SPACE).
Proof. apply Forall_replicate, isspace_SPACE. Qed.

Lemma strip_ljust (t : str) w : strip t = t → strip (ljust t w) = t.
Proof.
  intros H. unfold ljust.
  by rewrite strip_app_spaces by apply Forall_isspace_replicate.
Qed.

Lemma strip_rjust (t : str) w : strip t = t → strip (rjust t w) = t.
Proof.
  intros H. unfold rjust.
  by rewrite strip_spaces_app by apply Forall_isspace_replicate.
Qed.

Lemma strip_cell line col : strip (cell line col) = cell line col.
Proof. apply strip_idemp. Qed.

(** Cutting trailing whitespace off a line does not change its cells. *)
Lemma cell_app_spaces (rendered tail : str) col :
  Forall (λ c, isspace c = true) tail →
  cell (rendered ++ tail) col = cell rendered col.
Proof.
  intros H. unfold cell. rewrite !extract_value_take_drop.
  rewrite drop_app, take_app. apply strip_app_spaces.
  by apply Forall_take, Forall_drop.
Qed.

Lemma cell_rstrip (s : str) col : cell (rstrip s) col = cell s col.
Proof.
  destruct (rstrip_split s) as [tail [E H]].
  rewrite E at 2. by rewrite cell_app_spaces.
Qed.

(** The cell read back from a rendered row is the cell that was written. *)
Lemma cell_rendered (parts : list str) (widths : list nat) i col (p : str) :
  Forall2 (λ (p : str) w, length p = w) parts widths →
  spans_from 0 widths !! i = Some col → parts !! i = Some p →
  cell (rstrip (join [SPACE] parts)) col = strip p.
Proof.
  intros H Hs Hp. rewrite cell_rstrip. unfold cell. destruct col as [s e].
  simpl. by rewrite (join_extract _ _ _ _ _ _ H Hs Hp).
Qed.

(** *** Rendering a rendered table again *)

Section rendered_again.
Variables (H0 R0 : list str) (cols0 : list span).

Local Abbreviation widths := (width_of H0 R0 <$> cols0).
Local Abbreviation canon := (spans_from 0 (width_of H0 R0 <$> cols0)).
Local Abbreviation H := (render_header_line H0 R0 cols0 <$> H0).
Local Abbreviation R := (render_data_line H0 R0 cols0 <$> R0).

Lemma header_parts_widths line :
  line ∈ H0 →
  Forall2 (λ (p : str) w, length p = w) (header_parts H0 R0 cols0 line) widths.
Proof.
  intros Hin. unfold header_parts.
  apply Forall2_fmap, Forall_Forall2_diag, Forall_forall. intros col _.
  rewrite length_ljust.
  assert (length (cell line col) ≤ width_of H0 R0 col)
    by (apply cell_le_width, elem_of_app; by left).
  lia.
Qed.

Lemma data_parts_widths line :
  line ∈ R0 →
  Forall2 (λ (p : str) w, length p = w) (data_parts H0 R0 cols0 line) widths.
Proof.
  intros Hin. unfold data_parts.
  apply Forall2_fmap, Forall_Forall2_diag, Forall_forall. intros col _.
  assert (length (cell line col) ≤ width_of H0 R0 col)
    by (apply cell_le_width, elem_of_app; by right).
  case_bool_decide; rewrite ?length_rjust, ?length_ljust; lia.
Qed.

Lemma cell_render_header_line line i col ccol :
  line ∈ H0 → cols0 !! i = Some col → canon !! i = Some ccol →
  cell (render_header_line H0 R0 cols0 line) ccol = cell line col.
Proof.
  intros Hin Hc Hcc. unfold render_header_line.
  rewrite (cell_rendered _ widths i ccol
             (ljust (cell line col) (width_of H0 R0 col))).
  - apply strip_ljust, strip_cell.
  - by apply header_parts_widths.
  - done.
  - unfold header_parts. by rewrite list_lookup_fmap, Hc.
Qed.

Lemma cell_render_data_line line i col ccol :
  line ∈ R0 → cols0 !! i = Some col → canon !! i = Some ccol →
  cell (render_data_line H0 R0 cols0 line) ccol = cell line col.
Proof.
  intros Hin Hc Hcc. unfold render_data_line.
  rewrite (cell_rendered _ widths i ccol
             (if bool_decide (justification_of R0 col = Right)
              then rjust (cell line col) (width_of H0 R0 col)
              else ljust (cell line col) (width_of H0 R0 col))).
  - case_bool_decide; [apply strip_rjust | apply strip_ljust]; apply strip_cell.
  - by apply data_parts_widths.
  - done.
  - unfold data_parts. by rewrite list_lookup_fmap, Hc.
Qed.

Lemma width_of_rendered i col ccol :
  cols0 !! i = Some col → canon !! i = Some ccol →
  width_of H R ccol = width_of H0 R0 col.
Proof.
  intros Hc Hcc. unfold width_of. rewrite <-!list_fmap_compose.
  f_equal; f_equal; apply list_fmap_ext; intros k line Hk; simpl.
  - apply (cell_render_header_line _ i); [|done..].
    by eapply list_elem_of_lookup_2.
  - apply (cell_render_data_line _ i); [|done..].
    by eapply list_elem_of_lookup_2.
Qed.

Lemma canon_lookup i col :
  cols0 !! i = Some col → ∃ ccol, canon !! i = Some ccol.
Proof.
  intros Hc. apply lookup_lt_is_Some_2.
  rewrite length_spans_from, length_fmap. by eapply lookup_lt_Some.
Qed.

Lemma header_parts_rendered line :
  line ∈ H0 →
  header_parts H R canon (render_header_line H0 R0 cols0 line)
  = header_parts H0 R0 cols0 line.
Proof.
  intros Hin. unfold header_parts. apply list_eq. intros i.
  rewrite !list_lookup_fmap.
  destruct (cols0 !! i) as [col|] eqn:Hc.
  - destruct (canon_lookup i col Hc) as [ccol Hcc]. rewrite Hcc. simpl.
    by rewrite (cell_render_header_line _ _ _ _ Hin Hc Hcc),
               (width_of_rendered _ _ _ Hc Hcc).
  - rewrite (lookup_ge_None_2 canon); [done|].
    rewrite length_spans_from, length_fmap. by apply lookup_ge_None_1.
Qed.

Lemma dash_parts_rendered : dash_parts H R canon = dash_parts H0 R0 cols0.
Proof.
  unfold dash_parts. apply list_eq. intros i.
  rewrite !list_lookup_fmap.
  destruct (cols0 !! i) as [col|] eqn:Hc.
  - destruct (canon_lookup i col Hc) as [ccol Hcc]. rewrite Hcc. simpl.
    by rewrite (width_of_rendered _ _ _ Hc Hcc).
  - rewrite (lookup_ge_None_2 canon); [done|].
    rewrite length_spans_from, length_fmap. by apply lookup_ge_None_1.
Qed.

(** The raw cell read back from a rendered row is the part that was
    written, up to trailing whitespace that the trimming of the row cut. *)
Lemma extract_rendered (parts : list str) (ws : list nat) i s e (p : str) :
  Forall2 (λ (p : str) w, length p = w) parts ws →
  spans_from 0 ws !! i = Some (s, e) → parts !! i = Some p →
  ∃ m, extract_value (rstrip (join [SPACE] parts)) s e = take m p ∧
       Forall (λ c, isspace c = true) (drop m p).
Proof.
  intros HF Hs Hp.
  destruct (join_span _ _ _ _ _ _ _ HF Hs Hp) as (pre & post & Hj & -> & -> & _).
  destruct (rstrip_split (join [SPACE] parts)) as (tail & Hr & Htail).
  set (r := rstrip (join [SPACE] parts)) in *.
  exists (length r - length pre). simpl. split.
  - rewrite extract_value_take_drop.
    replace (length pre + length p - length pre) with (length p) by lia.
    assert (r = take (length r) (pre ++ p ++ post)) as Hr'.
    { rewrite <-Hj, Hr. by rewrite take_app_length. }
    rewrite Hr' at 1. rewrite skipn_firstn_comm, drop_app_length.
    rewrite take_take, take_app.
    destruct (decide (length r - length pre ≤ length p)) as [Hle|Hgt].
    + rewrite Nat.min_r by lia.
      replace (length r - length pre - length p) with 0 by lia.
      by rewrite take_0, app_nil_r.
    + rewrite Nat.min_l by lia. rewrite Nat.sub_diag, take_0, app_nil_r.
      by rewrite !take_ge by lia.
  - apply Forall_lookup. intros k x Hk. rewrite lookup_drop in Hk.
    assert ((pre ++ p ++ post) !! (length pre + (length r - length pre + k))
            = Some x) as Hx.
    { rewrite lookup_app_r by lia.
      replace (length pre + (length r - length pre + k) - length pre)
        with (length r - length pre + k) by lia.
      by apply lookup_app_l_Some. }
    rewrite <-Hj, Hr, lookup_app_r in Hx by lia.
    apply (Forall_lookup_1 _ _ _ _ Htail Hx).
Qed.

Lemma stripped_head c (t : str) : strip (c :: t) = c :: t → isspace c = false.
Proof.
  intros H. pose proof (lstrip_strip (c :: t)) as E. rewrite H in E.
  by eapply lstrip_head.
Qed.

Lemma stripped_last (t : str) y : strip t = t → last t = Some y → isspace y = false.
Proof.
  intros H Hl. pose proof (rstrip_strip t) as E. rewrite H in E.
  rewrite <-E in Hl. by eapply rstrip_last.
Qed.

Lemma leading_spaces_replicate_app n (t : str) :
  leading_spaces (replicate n SPACE ++ t) = n + leading_spaces t.
Proof. induction n as [|n IH]; simpl; [done|]. by rewrite IH. Qed.

Lemma leading_spaces_nonspace c (t : str) :
  isspace c = false → leading_spaces (c :: t) = 0.
Proof. intros H. simpl. by rewrite H. Qed.

Lemma trailing_spaces_app_replicate (t : str) n :
  trailing_spaces (t ++ replicate n SPACE) = n + trailing_spaces t.
Proof.
  unfold trailing_spaces.
  by rewrite reverse_app, reverse_replicate, leading_spaces_replicate_app.
Qed.

Lemma trailing_spaces_snoc (t : str) y :
  isspace y = false → trailing_spaces (t ++ [y]) = 0.
Proof.
  intros H. unfold trailing_spaces.
  by rewrite reverse_snoc, leading_spaces_nonspace.
Qed.

Lemma cell_signal_blank (raw : str) :
  Forall (λ c, isspace c = true) raw → cell_signal raw = None.
Proof.
  intros H. unfold cell_signal. by rewrite (proj2 (blank_true raw) H).
Qed.

Lemma blank_snoc_nonspace (t : str) y (u : str) :
  isspace y = false → blank (t ++ [y] ++ u) = false.
Proof.
  intros H. apply blank_false. exists y. split; [|done].
  apply elem_of_app. right. by left.
Qed.

(** A whitespace tail cannot reach into a part that ends in a character
    that is not whitespace. *)
Lemma drop_spaces_snoc (t : str) y m :
  isspace y = false → Forall (λ c, isspace c = true) (drop m (t ++ [y])) →
  length (t ++ [y]) ≤ m.
Proof.
  intros Hy H. destruct (decide (length (t ++ [y]) ≤ m)) as [|Hlt]; [done|].
  rewrite length_app in Hlt. simpl in Hlt.
  assert (drop m (t ++ [y]) !! (length t - m) = Some y) as Hl.
  { rewrite lookup_drop, lookup_app_r by lia.
    by replace (m + (length t - m) - length t) with 0 by lia. }
  apply (Forall_lookup_1 _ _ _ _ H) in Hl. congruence.
Qed.

Lemma stripped_snoc (c : str) :
  strip c = c → c ≠ [] →
  ∃ x t t' y, c = x :: t ∧ c = t' ++ [y] ∧
              isspace x = false ∧ isspace y = false.
Proof.
  intros Hs Hne. destruct c as [|x t]; [done|].
  destruct (last (x :: t)) as [y|] eqn:Hl.
  - apply last_Some in Hl as Hl'. destruct Hl' as [t' Ht'].
    exists x, t, t', y. split; [done|]. split; [done|].
    split; [by eapply stripped_head | by eapply stripped_last].
  - by apply last_None in Hl.
Qed.

(** What a cell rendered to the right says when it is read back. *)
Lemma signal_rjust (c : str) w m :
  strip c = c → Forall (λ x, isspace x = true) (drop m (rjust c w)) →
  (cell_signal (take m (rjust c w)) = None ∧ rjust c w = ljust c w) ∨
  cell_signal (take m (rjust c w)) = Some Right.
Proof.
  intros Hs Hdrop. destruct (decide (c = [])) as [->|Hne].
  { left. split.
    - apply cell_signal_blank, Forall_take. unfold rjust.
      rewrite app_nil_r. apply Forall_isspace_replicate.
    - unfold rjust, ljust. by rewrite app_nil_r. }
  destruct (stripped_snoc c Hs Hne) as (x & t & t' & y & Hx & Hy & Hxs & Hys).
  assert (length (rjust c w) ≤ m) as Hm.
  { unfold rjust in *. rewrite Hy, app_assoc in Hdrop |- *.
    by eapply drop_spaces_snoc. }
  rewrite take_ge by done.
  assert (blank (rjust c w) = false) as Hb.
  { unfold rjust. rewrite Hy, app_assoc, <-(app_nil_r [y]).
    by apply blank_snoc_nonspace. }
  assert (leading_spaces (rjust c w) = w - length c) as Hl.
  { unfold rjust. rewrite leading_spaces_replicate_app, Hx.
    rewrite leading_spaces_nonspace by done. lia. }
  assert (trailing_spaces (rjust c w) = 0) as Ht.
  { unfold rjust. rewrite Hy, app_assoc. by apply trailing_spaces_snoc. }
  unfold cell_signal. rewrite Hb, Hl, Ht.
  destruct (decide (0 < w - length c)) as [Hpos|Hzero].
  - right. by rewrite bool_decide_eq_true_2.
  - left. split.
    + repeat case_bool_decide; try done; lia.
    + unfold rjust, ljust. replace (w - length c) with 0 by lia.
      simpl. by rewrite app_nil_r.
Qed.

(** What a cell rendered to the left says when it is read back. *)
Lemma signal_ljust (c : str) w m :
  strip c = c → Forall (λ x, isspace x = true) (drop m (ljust c w)) →
  cell_signal (take m (ljust c w)) = None ∨
  cell_signal (take m (ljust c w)) = Some Left.
Proof.
  intros Hs Hdrop. destruct (decide (c = [])) as [->|Hne].
  { left. apply cell_signal_blank, Forall_take. unfold ljust. simpl.
    apply Forall_isspace_replicate. }
  destruct (stripped_snoc c Hs Hne) as (x & t & t' & y & Hx & Hy & Hxs & Hys).
  assert (length c ≤ m) as Hm.
  { destruct (decide (length c ≤ m)) as [|Hlt]; [done|].
    unfold ljust in Hdrop. rewrite drop_app_le in Hdrop by lia.
    apply Forall_app in Hdrop as [Hdrop _]. rewrite Hy in Hdrop |- *.
    by eapply drop_spaces_snoc. }
  assert (take m (ljust c w)
          = c ++ replicate (min (m - length c) (w - length c)) SPACE) as ->.
  { unfold ljust. rewrite take_app, take_ge by done. by rewrite take_replicate. }
  set (k := min (m - length c) (w - length c)).
  assert (blank (c ++ replicate k SPACE) = false) as Hb.
  { rewrite Hy, <-app_assoc. by apply blank_snoc_nonspace. }
  assert (leading_spaces (c ++ replicate k SPACE) = 0) as Hl.
  { rewrite Hx, <-app_comm_cons. by apply leading_spaces_nonspace. }
  assert (trailing_spaces (c ++ replicate k SPACE) = k) as Ht.
  { rewrite trailing_spaces_app_replicate, Hy, trailing_spaces_snoc by done.
    lia. }
  unfold cell_signal. rewrite Hb, Hl, Ht.
  repeat case_bool_decide; auto; lia.
Qed.

Lemma detect_justification_uniform (cells : list str) j :
  Forall (λ v, cell_signal v = None ∨ cell_signal v = Some j) cells →
  detect_justification cells = j ∨
  (detect_justification cells = Left ∧
   Forall (λ v, cell_signal v = None) cells).
Proof.
  induction 1 as [|v cells [Hv|Hv] _ IH].
  - right. by split.
  - rewrite detect_justification_cons, Hv.
    destruct IH as [?|[? ?]]; [by left|right]. split; [done|by constructor].
  - left. by rewrite detect_justification_cons, Hv.
Qed.

Lemma justification_of_rendered i col ccol :
  cols0 !! i = Some col → canon !! i = Some ccol →
  justification_of R ccol = justification_of R0 col ∨
  (justification_of R0 col = Right ∧ justification_of R ccol = Left ∧
   ∀ line, line ∈ R0 →
     rjust (cell line col) (width_of H0 R0 col)
     = ljust (cell line col) (width_of H0 R0 col)).
Proof.
  intros Hc Hcc. destruct ccol as [s e].
  assert (∀ line, line ∈ R0 →
            ∃ m, extract_value (render_data_line H0 R0 cols0 line) s e
                 = take m (if bool_decide (justification_of R0 col = Right)
                           then rjust (cell line col) (width_of H0 R0 col)
                           else ljust (cell line col) (width_of H0 R0 col)) ∧
                 Forall (λ x, isspace x = true)
                   (drop m (if bool_decide (justification_of R0 col = Right)
                            then rjust (cell line col) (width_of H0 R0 col)
                            else ljust (cell line col) (width_of H0 R0 col))))
    as Hraw.
  { intros line Hin. apply (extract_rendered _ widths i).
    - by apply data_parts_widths.
    - done.
    - unfold data_parts. by rewrite list_lookup_fmap, Hc. }
  assert (justification_of R (s, e)
          = detect_justification
              ((λ line, extract_value (render_data_line H0 R0 cols0 line) s e)
                 <$> R0)) as ->.
  { unfold justification_of. simpl. by rewrite <-list_fmap_compose. }
  destruct (justification_of R0 col) eqn:HJ.
  - left.
    destruct (detect_justification_uniform
                ((λ line, extract_value (render_data_line H0 R0 cols0 line) s e)
                   <$> R0) Left) as [?|[? _]]; [|done..].
    apply Forall_fmap, Forall_forall. intros line Hin. simpl.
    destruct (Hraw line Hin) as (m & -> & Hdrop).
    rewrite bool_decide_eq_false_2 in Hdrop |- * by done.
    apply signal_ljust; [apply strip_cell | done].
  - assert (∀ line, line ∈ R0 →
              (cell_signal (extract_value (render_data_line H0 R0 cols0 line) s e)
                 = None ∧
               rjust (cell line col) (width_of H0 R0 col)
                 = ljust (cell line col) (width_of H0 R0 col)) ∨
              cell_signal (extract_value (render_data_line H0 R0 cols0 line) s e)
                = Some Right) as Hsig.
    { intros line Hin. destruct (Hraw line Hin) as (m & -> & Hdrop).
      rewrite bool_decide_eq_true_2 in Hdrop |- * by done.
      apply signal_rjust; [apply strip_cell | done]. }
    destruct (detect_justification_uniform
                ((λ line, extract_value (render_data_line H0 R0 cols0 line) s e)
                   <$> R0) Right) as [?|[HL Hnone]]; [|by left|].
    { apply Forall_fmap, Forall_forall. intros line Hin. simpl.
      destruct (Hsig line Hin) as [[? _]|?]; [by left | by right]. }
    right. split; [done|]. split; [done|]. intros line Hin.
    destruct (Hsig line Hin) as [[_ ?]|Hs]; [done|].
    rewrite Forall_fmap, Forall_forall in Hnone.
    specialize (Hnone line Hin). simpl in Hnone. congruence.
Qed.

Lemma data_parts_rendered line :
  line ∈ R0 →
  data_parts H R canon (render_data_line H0 R0 cols0 line)
  = data_parts H0 R0 cols0 line.
Proof.
  intros Hin. unfold data_parts. apply list_eq. intros i.
  rewrite !list_lookup_fmap.
  destruct (cols0 !! i) as [col|] eqn:Hc.
  - destruct (canon_lookup i col Hc) as [ccol Hcc]. rewrite Hcc. simpl.
    rewrite (cell_render_data_line _ _ _ _ Hin Hc Hcc),
            (width_of_rendered _ _ _ Hc Hcc).
    destruct (justification_of_rendered i col ccol Hc Hcc)
      as [->|(HJ & HJ' & Heq)]; [done|].
    rewrite HJ, HJ'. simpl. f_equal. symmetry. by apply Heq.
  - rewrite (lookup_ge_None_2 canon); [done|].
    rewrite length_spans_from, length_fmap. by apply lookup_ge_None_1.
Qed.

(** A rendered table, rendered again with the columns of its own
    separator, is itself. *)
Lemma render_table_rendered :
  render_table H R canon = render_table H0 R0 cols0.
Proof.
  unfold render_table. f_equal; [|f_equal].
  - rewrite <-list_fmap_compose. apply list_fmap_ext. intros k line Hk. simpl.
    unfold render_header_line at 1. rewrite header_parts_rendered; [done|].
    by eapply list_elem_of_lookup_2.
  - unfold render_dash_line. by rewrite dash_parts_rendered.
  - rewrite <-list_fmap_compose. apply list_fmap_ext. intros k line Hk. simpl.
    unfold render_data_line at 1. rewrite data_parts_rendered; [done|].
    by eapply list_elem_of_lookup_2.
Qed.
End rendered_again.

(** *** The rendered table is detected again *)

Lemma Forall_join (P : N → Prop) (sep : str) (parts : list str) :
  Forall P sep → Forall (Forall P) parts → Forall P (join sep parts).
Proof.
  intros Hsep. induction 1 as [|p parts Hp Hparts IH]; [constructor|].
  destruct parts as [|q parts]; [done|].
  rewrite join_cons by done. by repeat (apply Forall_app; split).
Qed.

Lemma render_dash_line_widths header_lines data_lines columns :
  render_dash_line header_lines data_lines columns
  = join [SPACE] ((λ w, replicate w DASH)
                    <$> (width_of header_lines data_lines <$> columns)).
Proof.
  unfold render_dash_line, dash_parts. by rewrite <-list_fmap_compose.
Qed.

Lemma find_columns_render_dash_line header_lines data_lines columns :
  Forall (λ col, 0 < width_of header_lines data_lines col) columns →
  find_columns (render_dash_line header_lines data_lines columns)
  = spans_from 0 (width_of header_lines data_lines <$> columns).
Proof.
  intros H. rewrite render_dash_line_widths.
  apply find_columns_dash_row. by apply Forall_fmap.
Qed.

Lemma is_dash_line_render_dash_line header_lines data_lines columns :
  columns ≠ [] →
  Forall (λ col, 0 < width_of header_lines data_lines col) columns →
  is_dash_line (render_dash_line header_lines data_lines columns) = true.
Proof.
  intros Hne Hpos. rewrite render_dash_line_widths.
  set (ws := width_of header_lines data_lines <$> columns).
  assert (Forall (λ c, c = DASH ∨ c = SPACE)
                 (join [SPACE] ((λ w, replicate w DASH) <$> ws))) as Hall.
  { apply Forall_join; [by repeat constructor|].
    apply Forall_fmap, Forall_forall. intros w _. simpl.
    apply Forall_replicate. by left. }
  assert (DASH ∈ join [SPACE] ((λ w, replicate w DASH) <$> ws)) as Hin.
  { unfold ws. destruct columns as [|col columns]; [done|].
    apply Forall_cons_1 in Hpos as [Hcol _]. rewrite !fmap_cons.
    destruct (width_of header_lines data_lines col) as [|w]; [lia|].
    destruct columns; simpl; left. }
  apply is_dash_line_iff.
  - intros Hnl. rewrite Forall_forall in Hall.
    by destruct (Hall _ Hnl).
  - split; [|done]. apply blank_false. by exists DASH.
Qed.

Lemma gap_spans_spans_from a (ws : list nat) (gap : span) :
  gap ∈ gap_spans (spans_from a ws) →
  ∃ i s, spans_from a ws !! i = Some (s, gap.1) ∧ gap.2 = gap.1 + 1 ∧
         i + 1 < length ws.
Proof.
  revert a. induction ws as [|w [|w2 ws] IH]; intros a; simpl.
  - by intros ?%elem_of_nil.
  - by intros ?%elem_of_nil.
  - intros [->|Hin]%elem_of_cons.
    + exists 0, a. simpl. split; [done|]. split; lia.
    + destruct (IH _ Hin) as (i & s & Hs & Hg & Hi).
      exists (S i), s. simpl in *. split; [done|]. split; lia.
Qed.

(** A rendered row has the joining space, or its end, at every gap of the
    rendered separator. *)
Lemma rendered_row_gap_pure (parts : list str) (ws : list nat) :
  Forall2 (λ (p : str) w, length p = w) parts ws →
  gap_pure (rstrip (join [SPACE] parts)) (gap_spans (spans_from 0 ws)).
Proof.
  intros HF gap pos Hgap Hpos Hlen.
  destruct (gap_spans_spans_from _ _ _ Hgap) as (i & s & Hs & Hg & Hi).
  assert (pos = gap.1) as -> by lia.
  destruct (lookup_lt_is_Some_2 parts i) as [p Hp].
  { rewrite (Forall2_length _ _ _ HF). lia. }
  destruct (join_span _ _ _ _ _ _ _ HF Hs Hp)
    as (pre & post & Hj & -> & He & Hpost).
  destruct Hpost as [post' ->].
  { rewrite (Forall2_length _ _ _ HF). lia. }
  destruct (rstrip_split (join [SPACE] parts)) as (tail & Hr & _).
  assert ((rstrip (join [SPACE] parts) ++ tail) !! gap.1 = Some SPACE) as Hl.
  { rewrite <-Hr, Hj, He. simpl.
    rewrite app_assoc, lookup_app_r by (rewrite length_app; lia).
    rewrite length_app. simpl.
    by replace (length pre + length p - (length pre + length p)) with 0 by lia. }
  by rewrite lookup_app_l in Hl.
Qed.

Lemma find_columns_from_nonempty rest i (start : option nat) :
  DASH ∈ rest ∨ is_Some start → find_columns_from rest i start ≠ [].
Proof.
  revert i start. induction rest as [|c rest IH]; intros i start Hor.
  - destruct Hor as [?%elem_of_nil|[st ->]]; done.
  - simpl. destruct start as [st|]; destruct (is_dash c) eqn:Hc; try done.
    + apply IH. by right.
    + apply IH. by right.
    + apply IH. left. destruct Hor as [[<-|?]%elem_of_cons|[? ?]]; try done.
Qed.

Lemma is_dash_line_columns line :
  is_dash_line line = true → find_columns line ≠ [].
Proof.
  unfold is_dash_line. destruct (_ || _); [done|].
  intros [_ Hin%bool_decide_eq_true_1]%andb_true_iff.
  apply find_columns_from_nonempty. by left.
Qed.

(** *** Writing the output and reading it again *)

Section characters.
Variable P : N → Prop.

Lemma Forall_lstrip (s : str) : Forall P s → Forall P (lstrip s).
Proof.
  destruct (lstrip_split s) as [ws [E _]]. rewrite E at 1.
  by intros [_ ?]%Forall_app.
Qed.

Lemma Forall_rstrip (s : str) : Forall P s → Forall P (rstrip s).
Proof.
  destruct (rstrip_split s) as [ws [E _]]. rewrite E at 1.
  by intros [? _]%Forall_app.
Qed.

Lemma Forall_cell line col : Forall P line → Forall P (cell line col).
Proof.
  intros H. unfold cell, strip. rewrite extract_value_take_drop.
  by apply Forall_rstrip, Forall_lstrip, Forall_take, Forall_drop.
Qed.

Lemma Forall_ljust (t : str) w : P SPACE → Forall P t → Forall P (ljust t w).
Proof.
  intros Hs Ht. apply Forall_app. split; [done|]. by apply Forall_replicate.
Qed.

Lemma Forall_rjust (t : str) w : P SPACE → Forall P t → Forall P (rjust t w).
Proof.
  intros Hs Ht. apply Forall_app. split; [|done]. by apply Forall_replicate.
Qed.

(** The characters of a rendered table are characters of its lines, spaces
    and dashes. *)
Lemma Forall_render_table header_lines data_lines columns :
  P SPACE → P DASH →
  Forall (Forall P) (header_lines ++ data_lines) →
  Forall (Forall P) (render_table header_lines data_lines columns).
Proof.
  intros Hs Hd [Hh Hr]%Forall_app. unfold render_table.
  apply Forall_app. split; [|apply Forall_cons; split].
  - apply Forall_fmap. eapply Forall_impl; [exact Hh|]. intros line Hl. simpl.
    apply Forall_rstrip, Forall_join; [by repeat constructor|].
    apply Forall_fmap, Forall_forall. intros col _. simpl.
    by apply Forall_ljust, Forall_cell.
  - apply Forall_join; [by repeat constructor|].
    apply Forall_fmap, Forall_forall. intros col _. simpl.
    by apply Forall_replicate.
  - apply Forall_fmap. eapply Forall_impl; [exact Hr|]. intros line Hl. simpl.
    apply Forall_rstrip, Forall_join; [by repeat constructor|].
    apply Forall_fmap, Forall_forall. intros col _. simpl.
    case_bool_decide; [apply Forall_rjust | apply Forall_ljust];
      by try apply Forall_cell.
Qed.
End characters.

Lemma replace_crlf_id (s : str) :
  Forall (λ c, c ≠ CR) s → replace_crlf s = s.
Proof.
  induction 1 as [|c s Hc Hs IH]; [done|].
  destruct s as [|d s]; [done|].
  change (replace_crlf (c :: d :: s))
    with (if (c =? CR)%N && (d =? NL)%N then NL :: replace_crlf s
          else c :: replace_crlf (d :: s)).
  destruct (N.eqb_spec c CR) as [?|_]; [done|]. simpl andb. by rewrite IH.
Qed.

Lemma replace_cr_id (s : str) : Forall (λ c, c ≠ CR) s → replace_cr s = s.
Proof.
  induction 1 as [|c s Hc Hs IH]; [done|]. unfold replace_cr in *.
  rewrite fmap_cons, IH. by destruct (N.eqb_spec c CR).
Qed.

Lemma split_nl_line (line rest : str) :
  NL ∉ line → split_nl (line ++ NL :: rest) = line :: split_nl rest.
Proof.
  induction line as [|c line IH]; intros Hnl; [done|].
  rewrite <-app_comm_cons.
  change (split_nl (c :: ?t))
    with (if (c =? NL)%N then [] :: split_nl t
          else match split_nl t with
               | cur :: r => (c :: cur) :: r
               | [] => [[c]]
               end).
  destruct (N.eqb_spec c NL) as [->|_]; [destruct Hnl; left|].
  rewrite IH; [done|]. intros ?. apply Hnl. by right.
Qed.

Lemma split_nl_write_lines (out : list str) :
  Forall (λ line, NL ∉ line) out → split_nl (write_lines out) = out ++ [[]].
Proof.
  induction 1 as [|line out Hl _ IH]; [done|].
  unfold write_lines in *. rewrite fmap_cons. simpl concat.
  rewrite <-app_assoc. simpl app. by rewrite split_nl_line, IH.
Qed.

(** What [main] writes, read by [main]: the same lines, as long as no line
    holds a line break and the text does not start with a byte-order mark. *)
Lemma read_write_lines (out : list str) :
  Forall (Forall (λ c, c ≠ NL ∧ c ≠ CR ∧ c ≠ BOM)) out →
  read_lines (write_lines out) = out.
Proof.
  intros H. unfold read_lines.
  assert (Forall (λ c, c ≠ CR ∧ c ≠ BOM) (write_lines out)) as Hw.
  { unfold write_lines. apply Forall_concat, Forall_fmap.
    eapply Forall_impl; [exact H|]. intros line Hl. simpl.
    apply Forall_app. split; [|by repeat constructor].
    eapply Forall_impl; [exact Hl|]. by intros c (_ & ? & ?). }
  assert (match write_lines out with
          | c :: content' => if (c =? BOM)%N then content' else write_lines out
          | [] => write_lines out
          end = write_lines out) as ->.
  { destruct (write_lines out) as [|c w]; [done|].
    apply Forall_cons_1 in Hw as [[_ Hc] _].
    by destruct (N.eqb_spec c BOM). }
  assert (Forall (λ c, c ≠ CR) (write_lines out)) as Hcr.
  { eapply Forall_impl; [exact Hw|]. by intros c [? _]. }
  rewrite replace_crlf_id, replace_cr_id by done.
  rewrite split_nl_write_lines.
  - by rewrite last_snoc, removelast_last.
  - eapply Forall_impl; [exact H|]. intros line Hl Hin.
    rewrite Forall_forall in Hl. by destruct (Hl _ Hin) as [? _].
Qed.

(** *** A text of several blocks *)

Lemma forallb_Forall {A} (f : A → bool) (l : list A) :
  forallb f l = true ↔ Forall (λ x, f x = true) l.
Proof.
  induction l as [|x l IH]; simpl; [by split|].
  by rewrite andb_true_iff, Forall_cons, IH.
Qed.

Lemma header_rejected_spec (above : list str) columns :
  header_rejected above columns = true ↔
  ∀ a, last above = Some a → ¬ header_accepted a (gap_spans columns).
Proof.
  unfold header_rejected. destruct (last above) as [a|]; [|by split].
  split.
  - intros Hor b [= <-] [Hb Hv]%(header_accepted_dec _ columns).
    by rewrite Hb, Hv in Hor.
  - intros Hno. destruct (blank a) eqn:Hb; [done|].
    destruct (is_valid_header_line a columns (gap_spans columns)) eqn:Hv;
      [|done].
    destruct (Hno a eq_refl). by apply (header_accepted_dec _ columns).
Qed.

Lemma text_of_cons (b : block) (rest : list block) :
  text_of (b :: rest) = block_lines b ++ text_of rest.
Proof. done. Qed.

Lemma rendered_text_cons (b : block) (rest : list block) :
  rendered_text (b :: rest) = block_rendered b ++ rendered_text rest.
Proof. done. Qed.

Lemma laid_out_Text (above text : list str) (rest : list block) :
  laid_out above (Text text :: rest) = true ↔
  Forall (λ line, is_dash_line line = false) text ∧
  laid_out (above ++ text) rest = true.
Proof.
  cbn [laid_out]. rewrite andb_true_iff, forallb_Forall.
  split; intros [Ht ?]; (split; [|done]);
    (eapply Forall_impl; [exact Ht|]); intros line; simpl;
    by rewrite negb_true_iff.
Qed.

Lemma laid_out_Table (above header_lines : list str) (dash_line : str)
    (data_lines : list str) (rest : list block) :
  laid_out above (Table header_lines dash_line data_lines :: rest) = true ↔
  header_lines ≠ [] ∧
  is_dash_line dash_line = true ∧
  Forall (λ line,
            blank line = false ∧ is_dash_line line = false ∧
            is_valid_header_line line (find_columns dash_line)
                                 (gap_spans (find_columns dash_line)) = true)
         header_lines ∧
  Forall (λ line, blank line = false ∧ is_dash_line line = false) data_lines ∧
  header_rejected above (find_columns dash_line) = true ∧
  (∀ b, head (text_of rest) = Some b → blank b = true) ∧
  laid_out (above ++ header_lines ++ [dash_line] ++ data_lines) rest = true.
Proof.
  cbn [laid_out]. cbv zeta.
  rewrite !andb_true_iff, !forallb_Forall, negb_true_iff,
    bool_decide_eq_false.
  assert (match text_of rest with
          | line :: _ => blank line
          | [] => true
          end = true ↔
          ∀ b, head (text_of rest) = Some b → blank b = true) as ->.
  { destruct (text_of rest) as [|l ls]; simpl; split; try done.
    - by intros ? ? [= <-].
    - intros Hb. by apply Hb. }
  split.
  - intros ((((((? & ?) & Hh) & Hd) & ?) & ?) & ?).
    do 2 (split; [done|]). split; [|split; [|done]].
    + eapply Forall_impl; [exact Hh|]. intros line. simpl.
      rewrite !andb_true_iff, !negb_true_iff. tauto.
    + eapply Forall_impl; [exact Hd|]. intros line. simpl.
      rewrite !andb_true_iff, !negb_true_iff. tauto.
  - intros (? & ? & Hh & Hd & ? & ? & ?).
    split; [|done]. split; [|done]. split; [|done]. split; [|].
    + split; [done|].
      eapply Forall_impl; [exact Hh|]. intros line. simpl.
      rewrite !andb_true_iff, !negb_true_iff. tauto.
    + eapply Forall_impl; [exact Hd|]. intros line. simpl.
      rewrite !andb_true_iff, !negb_true_iff. tauto.
Qed.

Lemma keeps_layout_Table (above header_lines : list str) (dash_line : str)
    (data_lines : list str) (rest : list block) :
  keeps_layout above (Table header_lines dash_line data_lines :: rest) = true ↔
  Forall (λ col, 0 < width_of header_lines data_lines col)
         (find_columns dash_line) ∧
  Forall (λ line, blank line = false ∧ is_dash_line line = false)
         ((render_header_line header_lines data_lines (find_columns dash_line)
             <$> header_lines) ++
          (render_data_line header_lines data_lines (find_columns dash_line)
             <$> data_lines)) ∧
  header_rejected above
    (find_columns (render_dash_line header_lines data_lines
                                    (find_columns dash_line))) = true ∧
  keeps_layout (above ++ render_table header_lines data_lines
                                      (find_columns dash_line)) rest = true.
Proof.
  cbn [keeps_layout]. cbv zeta.
  rewrite !andb_true_iff, !forallb_Forall.
  split.
  - intros (((Hp & Ho) & ?) & ?). split; [|split; [|done]].
    + eapply Forall_impl; [exact Hp|]. intros col. simpl.
      intros Hb. by apply bool_decide_eq_true in Hb.
    + eapply Forall_impl; [exact Ho|]. intros line. simpl.
      rewrite !andb_true_iff, !negb_true_iff. tauto.
  - intros (Hp & Ho & ? & ?). split; [|done]. split; [|done]. split.
    + eapply Forall_impl; [exact Hp|]. intros col. simpl.
      intros Hb. by apply bool_decide_eq_true.
    + eapply Forall_impl; [exact Ho|]. intros line. simpl.
      rewrite !andb_true_iff, !negb_true_iff. tauto.
Qed.

(** The scan over a laid-out text: text blocks are stepped over, a table
    is handled at its separator. *)
Lemma main_loop_blocks lines (blocks : list block) :
  ∀ (pre : list str) st fuel,
    lines = pre ++ text_of blocks → laid_out pre blocks = true →
    main_loop (length (text_of blocks) + fuel) lines (length pre) st
    = Some (scan_blocks lines (length pre) blocks st).
Proof.
  induction blocks as [|[text|H d R] rest IH]; intros pre st fuel Hlines Hlaid.
  - apply main_loop_end. rewrite Hlines, length_app. simpl. lia.
  - apply laid_out_Text in Hlaid as [Htext Hrest].
    rewrite text_of_cons in Hlines |- *. simpl block_lines in *.
    rewrite length_app, <-Nat.add_assoc.
    rewrite main_loop_skip.
    2:{ intros k Hk. rewrite Hlines.
        rewrite lookup_app_r, lookup_app_l by lia.
        destruct (lookup_lt_is_Some_2 text (k - length pre)) as [line Hline];
          [lia|].
        exists line. split; [done|].
        by apply (Forall_lookup_1 _ _ _ _ Htext Hline). }
    rewrite <-(length_app pre text).
    rewrite (IH (pre ++ text)); [|by rewrite <-app_assoc|done].
    cbn [scan_blocks]. by rewrite length_app.
  - apply laid_out_Table in Hlaid
      as (Hne & Hdash & Hhead & Hdata & Hrej & Hnext & Hrest).
    rewrite header_rejected_spec in Hrej.
    rewrite text_of_cons in Hlines |- *. simpl block_lines in *.
    assert (lines = pre ++ H ++ [d] ++ R ++ text_of rest) as Hlines'.
    { rewrite Hlines. by rewrite <-!app_assoc. }
    clear Hlines. rename Hlines' into Hlines.
    set (p := length pre). set (n := length H). set (r := length R).
    set (q := length (text_of rest)).
    assert (0 < n) as Hn.
    { unfold n. destruct H; [done | simpl; lia]. }
    assert (length lines = p + n + S (r + q)) as Hlen.
    { rewrite Hlines, ?length_app. simpl. rewrite ?length_app.
      unfold p, n, r, q. lia. }
    assert (∀ k, k < p → lines !! k = pre !! k) as Hlpre.
    { intros k Hk. rewrite Hlines. by rewrite lookup_app_l. }
    assert (∀ k, k < n → lines !! (p + k) = H !! k) as Hlhead.
    { intros k Hk. rewrite Hlines. rewrite lookup_app_r by (unfold p; lia).
      replace (p + k - length pre) with k by (unfold p; lia).
      by rewrite lookup_app_l. }
    assert (lines !! (p + n) = Some d) as Hld.
    { rewrite Hlines. rewrite lookup_app_r by (unfold p; lia).
      replace (p + n - length pre) with n by (unfold p; lia).
      by rewrite lookup_app_r, Nat.sub_diag. }
    assert (drop (p + n + 1) lines = R ++ text_of rest) as Hdrop.
    { rewrite Hlines. rewrite (app_assoc H), (app_assoc pre).
      apply drop_app_length'. rewrite !length_app. simpl. unfold p, n. lia. }
    match goal with
    | |- main_loop ?f _ _ _ = _ => replace f with (n + S (r + q + fuel))
    end.
    2:{ rewrite ?length_app. simpl. rewrite ?length_app. unfold n, r, q. lia. }
    rewrite (main_loop_skip lines n).
    2:{ intros k Hk. replace k with (p + (k - p)) by lia.
        rewrite Hlhead by lia.
        destruct (lookup_lt_is_Some_2 H (k - p)) as [line Hline];
          [unfold n in *; lia|].
        exists line. split; [done|].
        by destruct (Forall_lookup_1 _ _ _ _ Hhead Hline) as (_ & ? & _). }
    rewrite main_loop_unfold by lia.
    destruct (main_step_spec lines (p + n) st d Hld)
      as [[? _]|(_ & top & Htop & _ & Hall & Hstop & Hstep)]; [congruence|].
    assert (top = p) as ->.
    { destruct (decide (top < p)) as [Hlt|Hge].
      - destruct (Hall (p - 1)) as (line & Hline & Hacc); [lia|].
        rewrite Hlpre in Hline by lia.
        destruct (Hrej line); [|done].
        rewrite last_lookup. by replace (pred (length pre)) with (p - 1)
          by (unfold p; lia).
      - destruct (decide (top = p)) as [?|Hne']; [done|].
        destruct Hstop as [?|(line & Hline & Hnot)]; [lia|]. destruct Hnot.
        replace (top - 1) with (p + (top - 1 - p)) in Hline by lia.
        rewrite Hlhead in Hline by lia.
        destruct (Forall_lookup_1 _ _ _ _ Hhead Hline) as (? & _ & ?).
        by apply (header_accepted_dec _ (find_columns d)). }
    destruct Hstep as [[? _]|[_ ->]]; [lia|].
    rewrite Hdrop, (collect_data_lines_app _ _ Hdata Hnext). fold r.
    replace (r + q + fuel) with (q + (r + fuel)) by lia.
    replace (p + n + 1 + r) with (length (pre ++ H ++ [d] ++ R))
      by (rewrite !length_app; simpl; unfold p, n, r; lia).
    unfold q. rewrite (IH (pre ++ H ++ [d] ++ R));
      [|by rewrite Hlines, <-!app_assoc|done].
    cbn [scan_blocks]. rewrite !length_app. simpl length. fold p n r.
    by replace (p + (n + (1 + r))) with (p + n + 1 + r) by lia.
Qed.

Lemma scan_blocks_stdout lines (blocks : list block) :
  ∀ off st, stdout (scan_blocks lines off blocks st) = stdout st.
Proof.
  induction blocks as [|[text|H d R] rest IH]; intros off st; cbn [scan_blocks];
    [done | apply IH | by rewrite IH].
Qed.

(** The scan of blocks that start at [off] leaves the entries below [off]
    as they are. *)
Lemma scan_blocks_frame lines (blocks : list block) :
  ∀ off st i, i < off →
    output_map (scan_blocks lines off blocks st) !! i = output_map st !! i ∧
    (i ∈ consumed (scan_blocks lines off blocks st) ↔ i ∈ consumed st).
Proof.
  induction blocks as [|[text|H d R] rest IH]; intros off st i Hi;
    cbn [scan_blocks].
  - done.
  - apply IH. lia.
  - destruct (IH (off + length H + 1 + length R)
                 (table_state lines off (off + length H) R (find_columns d) st)
                 i) as [Hm Hc]; [lia|].
    rewrite Hm, Hc. unfold table_state. simpl.
    rewrite lookup_insert_ne by lia. split; [done|].
    rewrite !elem_of_union, !elem_of_list_to_set, !elem_of_seq,
      elem_of_singleton.
    split; [intros [[[?|?]|?]|?]; [done|lia..] | intros ?; by do 3 left].
Qed.

(** The closing loop after the scan of a laid-out text: a text block is
    printed line by line, a table is printed as its rendering at its first
    header line and nothing is printed at its other lines. *)
Lemma output_blocks lines (blocks : list block) :
  ∀ (pre : list str) st,
    lines = pre ++ text_of blocks →
    (∀ i, length pre ≤ i → output_map st !! i = None ∧ i ∉ consumed st) →
    ∃ outs,
      mapM (output_at lines (scan_blocks lines (length pre) blocks st))
           (seq (length pre) (length (text_of blocks))) = Some outs ∧
      concat outs = rendered_text blocks.
Proof.
  induction blocks as [|[text|H d R] rest IH]; intros pre st Hlines Hfree.
  - by exists [].
  - rewrite text_of_cons in Hlines |- *. simpl block_lines in *.
    destruct (IH (pre ++ text) st) as (outs & Ho & Hc).
    { by rewrite <-app_assoc. }
    { intros i Hi. apply Hfree. rewrite length_app in Hi. lia. }
    rewrite length_app in Ho.
    exists (((λ line, [line]) <$> text) ++ outs). split.
    + rewrite length_app, seq_app. apply mapM_app_Some; [|done].
      apply mapM_seq_untouched. intros i line Hline.
      assert (i < length text) by by eapply lookup_lt_Some.
      unfold output_at. cbn [scan_blocks].
      destruct (scan_blocks_frame lines rest (length pre + length text) st
                  (length pre + i)) as [Hm Hcn]; [lia|].
      destruct (Hfree (length pre + i)) as [Hnone Hnot]; [lia|].
      rewrite Hm, Hnone. rewrite bool_decide_eq_false_2 by by rewrite Hcn.
      rewrite Hlines, lookup_app_r by lia.
      replace (length pre + i - length pre) with i by lia.
      rewrite lookup_app_l by done. by rewrite Hline.
    + rewrite concat_app, concat_singletons, Hc. done.
  - rewrite text_of_cons in Hlines |- *. simpl block_lines in *.
    assert (lines = pre ++ H ++ [d] ++ R ++ text_of rest) as Hlines'.
    { rewrite Hlines. by rewrite <-!app_assoc. }
    clear Hlines. rename Hlines' into Hlines.
    set (p := length pre). set (n := length H). set (r := length R).
    set (st' := table_state lines p (p + n) R (find_columns d) st).
    assert (length (pre ++ H ++ [d] ++ R) = p + n + 1 + r) as Hlen'.
    { rewrite !length_app. simpl. unfold p, n, r. lia. }
    assert (take n (drop p lines) = H) as Htake.
    { rewrite Hlines. unfold p, n. rewrite drop_app_length.
      by rewrite take_app_length. }
    destruct (IH (pre ++ H ++ [d] ++ R) st') as (outs & Ho & Hc).
    { rewrite Hlines. by rewrite <-!app_assoc. }
    { intros i Hi. rewrite Hlen' in Hi.
      destruct (Hfree i) as [Hnone Hnot]; [unfold p in *; lia|].
      unfold st', table_state. simpl. rewrite lookup_insert_ne by lia.
      split; [done|].
      rewrite !elem_of_union, !elem_of_list_to_set, !elem_of_seq,
        elem_of_singleton. intros [[[?|?]|?]|?]; [done|lia..]. }
    rewrite Hlen' in Ho.
    exists ([render_table H R (find_columns d)] ++ replicate (n + r) [] ++ outs).
    split.
    + match goal with
      | |- mapM _ (seq _ ?len) = _ =>
          replace len with (1 + ((n + r) + length (text_of rest)))
      end.
      2:{ rewrite ?length_app. simpl. rewrite ?length_app. unfold n, r. lia. }
      rewrite (seq_app 1), (seq_app (n + r)).
      cbn [scan_blocks]. fold p n r. fold st'.
      assert (∀ i, i < p + n + 1 + r →
                output_map (scan_blocks lines (p + n + 1 + r) rest st') !! i
                = output_map st' !! i ∧
                (i ∈ consumed (scan_blocks lines (p + n + 1 + r) rest st')
                 ↔ i ∈ consumed st')) as Hframe.
      { intros i Hi. by apply scan_blocks_frame. }
      assert (output_at lines (scan_blocks lines (p + n + 1 + r) rest st') p
              = Some (render_table H R (find_columns d))) as Hanchor.
      { unfold output_at. destruct (Hframe p) as [-> _]; [lia|].
        unfold st' at 1, table_state. simpl output_map.
        rewrite lookup_insert_eq.
        replace (p + n - p) with n by lia. by rewrite Htake. }
      apply (mapM_app_Some _ (seq p 1)); [|apply mapM_app_Some].
      * simpl seq. by rewrite mapM_cons_unfold, Hanchor.
      * apply mapM_seq_consumed. intros i Hi. unfold output_at.
        destruct (Hframe i) as [-> Hcn]; [lia|].
        destruct (Hfree i) as [Hnone _]; [unfold p in *; lia|].
        unfold st' at 1, table_state. simpl output_map.
        rewrite lookup_insert_ne, Hnone by lia.
        rewrite bool_decide_eq_true_2; [done|]. apply Hcn.
        unfold st', table_state. simpl consumed.
        rewrite !elem_of_union, !elem_of_list_to_set, !elem_of_seq,
          elem_of_singleton. lia.
      * replace (p + 1 + (n + r)) with (p + n + 1 + r) by lia. done.
    + rewrite rendered_text_cons. simpl block_rendered.
      rewrite !concat_app, concat_replicate_nil, Hc. simpl.
      by rewrite app_nil_r.
Qed.

(** The transform on a laid-out text renders every table and keeps the
    text. *)
Lemma transform_blocks (blocks : list block) :
  laid_out [] blocks = true →
  transform (text_of blocks) = Some (rendered_text blocks).
Proof.
  intros Hlaid. unfold transform.
  pose proof (main_loop_blocks (text_of blocks) blocks [] (State ∅ ∅ []) 0
                eq_refl Hlaid) as Hloop.
  rewrite Nat.add_0_r in Hloop. simpl length in Hloop. rewrite Hloop.
  cbn [mbind option_bind]. rewrite scan_blocks_stdout. simpl stdout.
  destruct (output_blocks (text_of blocks) blocks [] (State ∅ ∅ []) eq_refl)
    as (outs & Ho & Hc).
  { intros i _. simpl. split; [apply lookup_empty | apply not_elem_of_empty]. }
  unfold output_lines. simpl length in Ho. rewrite Ho.
  cbn [mbind option_bind mret option_ret]. by rewrite Hc.
Qed.

(** *** The rendered text is laid out again *)

Lemma text_of_block_again (blocks : list block) :
  text_of (block_again <$> blocks) = rendered_text blocks.
Proof.
  induction blocks as [|[text|H d R] rest IH]; [done|..];
    rewrite fmap_cons, text_of_cons, rendered_text_cons, IH; done.
Qed.

(** Rendering the rendered tables again changes nothing. *)
Lemma rendered_text_again (blocks : list block) :
  ∀ above, keeps_layout above blocks = true →
           rendered_text (block_again <$> blocks) = rendered_text blocks.
Proof.
  induction blocks as [|[text|H d R] rest IH]; intros above Hk; [done|..];
    rewrite fmap_cons, !rendered_text_cons.
  - cbn [keeps_layout] in Hk. by rewrite (IH _ Hk).
  - apply keeps_layout_Table in Hk as (Hpos & _ & _ & Hk).
    rewrite (IH _ Hk). f_equal. simpl.
    rewrite (find_columns_render_dash_line _ _ _ Hpos).
    apply render_table_rendered.
Qed.

Lemma head_text_of_again (blocks : list block) :
  ∀ above, laid_out above blocks = true →
    (∀ b, head (text_of blocks) = Some b → blank b = true) →
    ∀ b, head (text_of (block_again <$> blocks)) = Some b → blank b = true.
Proof.
  induction blocks as [|[text|H d R] rest IH]; intros above Hl Hb b; [done|..].
  - apply laid_out_Text in Hl as [_ Hl]. rewrite fmap_cons, text_of_cons.
    rewrite text_of_cons in Hb. simpl block_lines in *.
    destruct text as [|l text].
    + by apply (IH _ Hl).
    + simpl. intros [= <-]. by apply Hb.
  - apply laid_out_Table in Hl as (Hne & _ & Hhead & _).
    destruct H as [|h H]; [done|].
    apply Forall_cons_1 in Hhead as [[Hblank _] _].
    rewrite (Hb h) in Hblank; done.
Qed.

(** The rendered blocks are what the scan finds in the rendered text. *)
Lemma laid_out_again (blocks : list block) :
  ∀ above above',
    laid_out above blocks = true → keeps_layout above' blocks = true →
    laid_out above' (block_again <$> blocks) = true.
Proof.
  induction blocks as [|[text|H d R] rest IH]; intros above above' Hl Hk;
    [done|..]; rewrite fmap_cons.
  - apply laid_out_Text in Hl as [? Hl]. cbn [keeps_layout] in Hk.
    apply laid_out_Text. split; [done|]. by apply (IH (above ++ text)).
  - apply laid_out_Table in Hl
      as (Hne & Hdash & Hhead & Hdata & _ & Hnext & Hl).
    apply keeps_layout_Table in Hk as (Hpos & Hout & Hrej & Hk).
    apply Forall_app in Hout as [Hhout Hdout].
    pose proof (find_columns_render_dash_line _ _ _ Hpos) as Hfc.
    apply laid_out_Table. split; [by destruct H|].
    split.
    { apply is_dash_line_render_dash_line; [|done].
      by apply is_dash_line_columns. }
    split.
    { rewrite Hfc. apply Forall_fmap, Forall_forall. intros line Hin. simpl.
      rewrite Forall_fmap, Forall_forall in Hhout.
      destruct (Hhout line Hin) as [? ?]. do 2 (split; [done|]).
      apply is_valid_header_line_iff, rendered_row_gap_pure.
      by apply header_parts_widths. }
    split; [done|]. split; [done|].
    split; [by apply (head_text_of_again _ _ Hl)|].
    by apply (IH _ _ Hl).
Qed.

Lemma Forall_rendered_text (P : N → Prop) (blocks : list block) :
  P SPACE → P DASH →
  Forall (Forall P) (text_of blocks) → Forall (Forall P) (rendered_text blocks).
Proof.
  intros Hs Hd. induction blocks as [|[text|H d R] rest IH]; [done|..];
    rewrite text_of_cons, rendered_text_cons;
    intros [Hb Hrest]%Forall_app; apply Forall_app; (split; [|by apply IH]).
  - done.
  - simpl in *. apply Forall_render_table; [done..|].
    apply Forall_app in Hb as [? [_ ?]%Forall_cons_1]. by apply Forall_app.
Qed.

(** C3, amended. Take a text that is laid out as blocks of plain text and
    tables: no line of the plain text is a Separator Line; every table has
    a header block accepted for its separator, a separator and data
    lines, the line right above its header block, if any, is rejected by
    the header walk and the line right below its data block, if any, is
    blank. Then the transform renders every table and keeps the plain
    text. If moreover every column keeps a positive width, no rendered
    header or data line is blank or a Separator Line, and the line right
    above each table is rejected for the rendered separator too, then
    running the transform on that output returns it unchanged, for the
    lines and, when they hold no byte-order mark, for the texts read and
    written by [main]. *)
Theorem transform_idempotent_on_tables (blocks : list block) :
  laid_out [] blocks = true → keeps_layout [] blocks = true →
  transform (text_of blocks) = Some (rendered_text blocks) ∧
  transform (rendered_text blocks) = Some (rendered_text blocks) ∧
  ∀ content,
    read_lines content = text_of blocks →
    Forall (λ line, BOM ∉ line) (text_of blocks) →
    main content = Some (write_lines (rendered_text blocks)) ∧
    main (write_lines (rendered_text blocks))
      = Some (write_lines (rendered_text blocks)).
Proof.
  intros Hl Hk.
  pose proof (transform_blocks blocks Hl) as H1.
  assert (transform (rendered_text blocks) = Some (rendered_text blocks))
    as H2.
  { rewrite <-text_of_block_again at 1.
    rewrite transform_blocks; [by rewrite (rendered_text_again _ [])|].
    by apply (laid_out_again _ [] []). }
  split; [done|]. split; [done|]. intros content Hread Hbom.
  assert (Forall (Forall (λ c, c ≠ NL ∧ c ≠ CR ∧ c ≠ BOM)) (text_of blocks))
    as Hplain.
  { apply Forall_forall. intros line Hin. apply Forall_forall. intros c Hc.
    rewrite <-Hread in Hin.
    destruct (read_lines_no_newline _ _ Hin) as [Hnl Hcr].
    rewrite Hread in Hin.
    rewrite Forall_forall in Hbom. specialize (Hbom line Hin).
    repeat split; intros ->; done. }
  assert (read_lines (write_lines (rendered_text blocks))
          = rendered_text blocks) as Hrw.
  { apply read_write_lines. by apply Forall_rendered_text. }
  unfold main. by rewrite Hread, H1, Hrw, H2.
Qed.

Lemma transform_idempotent_on_tables_witness :
  main (py "a:b:c" ++ [CR; NL] ++
        py "A   B" ++ [CR; NL] ++ py "--- ---" ++ [CR; NL] ++
        py "1   2" ++ [CR; NL] ++ [CR; NL] ++
        py "FIRST       AGE" ++ [CR; NL] ++ py "NAME           " ++ [CR; NL] ++
        py "----------  ---" ++ [CR; NL] ++
        py "Al           30" ++ [CR; NL] ++ py "Barbara       5" ++ [CR; NL] ++
        [CR; NL] ++ py "  2 record(s) selected." ++ [CR; NL])
  = Some (write_lines
            [py "a:b:c"; py "A B"; py "- -"; py "1 2"; [];
             py "FIRST   AGE"; py "NAME"; py "------- ---";
             py "Al       30"; py "Barbara   5"; [];
             py "  2 record(s) selected."]) ∧
  main (write_lines
          [py "a:b:c"; py "A B"; py "- -"; py "1 2"; [];
           py "FIRST   AGE"; py "NAME"; py "------- ---";
           py "Al       30"; py "Barbara   5"; [];
           py "  2 record(s) selected."])
  = Some (write_lines
            [py "a:b:c"; py "A B"; py "- -"; py "1 2"; [];
             py "FIRST   AGE"; py "NAME"; py "------- ---";
             py "Al       30"; py "Barbara   5"; [];
             py "  2 record(s) selected."]).
Proof.
  destruct (transform_idempotent_on_tables
              [Text [py "a:b:c"];
               Table [py "A   B"] (py "--- ---") [py "1   2"];
               Text [[]];
               Table [py "FIRST       AGE"; py "NAME           "]
                     (py "----------  ---")
                     [py "Al           30"; py "Barbara       5"];
               Text [[]; py "  2 record(s) selected."]])
    as (_ & _ & Hmain).
  - vm_compute. reflexivity.
  - vm_compute. reflexivity.
  - apply Hmain.
    + vm_compute. reflexivity.
    + apply (bool_decide_unpack _). vm_compute. exact I.
Defined.

(** * Further properties *)

(** ** Column spans *)

(** The invariant of the pass of [find_columns]: [pre] is the part of the
    line already read, [start] the run that is open. *)
Lemma find_columns_from_inv (rest pre : str) (start : option nat) :
  match start with
  | Some st =>
      st < length pre ∧
      (∀ p, st ≤ p < length pre → pre !! p = Some DASH) ∧
      (st = 0 ∨ pre !! (st - 1) ≠ Some DASH)
  | None => length pre = 0 ∨ pre !! (length pre - 1) ≠ Some DASH
  end →
  (∀ s e, (s, e) ∈ find_columns_from rest (length pre) start →
     default (length pre) start ≤ s ∧ s < e ≤ length (pre ++ rest) ∧
     (∀ p, s ≤ p < e → (pre ++ rest) !! p = Some DASH) ∧
     (s = 0 ∨ (pre ++ rest) !! (s - 1) ≠ Some DASH) ∧
     (pre ++ rest) !! e ≠ Some DASH) ∧
  (∀ p, default (length pre) start ≤ p → (pre ++ rest) !! p = Some DASH →
     ∃ s e, (s, e) ∈ find_columns_from rest (length pre) start ∧ s ≤ p < e) ∧
  (∀ k s e s' e',
     find_columns_from rest (length pre) start !! k = Some (s, e) →
     find_columns_from rest (length pre) start !! S k = Some (s', e') →
     e < s').
Proof.
  revert pre start. induction rest as [|c rest IH]; intros pre start Hstart.
  - rewrite app_nil_r. destruct start as [st|]; simpl.
    + destruct Hstart as (Hlt & Hd & Hl). split; [|split].
      * intros s e [= -> ->]%list_elem_of_singleton.
        split; [done|]. split; [lia|]. split; [done|]. split; [done|].
        by rewrite lookup_ge_None_2.
      * intros p Hp Hdash. exists st, (length pre).
        split; [by left|]. apply lookup_lt_Some in Hdash. lia.
      * intros k s e s' e' _ Hk. by destruct k.
    + split; [|split].
      * by intros s e ?%elem_of_nil.
      * intros p Hp Hdash. apply lookup_lt_Some in Hdash. lia.
      * by intros k s e s' e' ?.
  - assert (pre ++ c :: rest = (pre ++ [c]) ++ rest) as Hline
      by by rewrite <-app_assoc.
    assert (length (pre ++ [c]) = S (length pre)) as Hlen
      by (rewrite length_app; simpl; lia).
    assert ((pre ++ [c]) !! length pre = Some c) as Hc
      by by rewrite lookup_app_r, Nat.sub_diag.
    rewrite Hline. specialize (IH (pre ++ [c])). rewrite Hlen in IH.
    destruct start as [st|]; simpl; destruct (is_dash c) eqn:Hdc.
    + (* the inner loop goes on *)
      apply N.eqb_eq in Hdc as ->. destruct Hstart as (Hlt & Hd & Hl).
      apply (IH (Some st)). split; [lia|]. split.
      * intros p Hp. destruct (decide (p = length pre)) as [->|]; [done|].
        rewrite lookup_app_l by lia. apply Hd. lia.
      * destruct Hl as [?|Hl]; [by left|right].
        by rewrite lookup_app_l by lia.
    + (* the inner loop ends: a column is appended *)
      apply N.eqb_neq in Hdc. destruct Hstart as (Hlt & Hd & Hl).
      destruct (IH None) as (IHa & IHb & IHc).
      { right. simpl. rewrite Nat.sub_0_r, Hc. by intros [= ?]. }
      simpl in IHa, IHb.
      assert (((pre ++ [c]) ++ rest) !! length pre = Some c) as Hc'
        by by apply lookup_app_l_Some.
      split; [|split].
      * intros s e [[= -> ->]|Hin]%elem_of_cons.
        -- split; [done|]. split; [rewrite length_app; lia|]. split.
           { intros p Hp. rewrite <-app_assoc, lookup_app_l by lia.
             apply Hd. lia. }
           split.
           { destruct Hl as [?|Hl]; [by left|right].
             by rewrite <-app_assoc, lookup_app_l by lia. }
           rewrite Hc'. by intros [= ?].
        -- destruct (IHa s e Hin) as (Hlo & ? & ? & ? & ?). simpl in Hlo |- *.
           repeat split; try done; lia.
      * intros p Hp Hdash. destruct (decide (p < length pre)) as [Hlt'|Hge].
        -- exists st, (length pre). split; [left | lia].
        -- assert (p ≠ length pre) by (intros ->; congruence).
           destruct (IHb p) as (s & e & Hin & Hse); [lia|done|].
           exists s, e. split; [by right | done].
      * intros k s e s' e' Hk Hk'. destruct k as [|k].
        -- injection Hk as <- <-. simpl in Hk'.
           destruct (IHa s' e') as (? & _); [|lia].
           by eapply list_elem_of_lookup_2.
        -- by eapply (IHc k).
    + (* a column starts *)
      apply N.eqb_eq in Hdc as ->.
      destruct (IH (Some (length pre))) as (IHa & IHb & IHc).
      { split; [lia|]. split.
        - intros p Hp. by replace p with (length pre) by lia.
        - destruct (decide (length pre = 0)) as [?|?]; [by left|].
          destruct Hstart as [?|Hl]; [done|]. right.
          by rewrite lookup_app_l by lia. }
      done.
    + (* a character between columns *)
      apply N.eqb_neq in Hdc.
      destruct (IH None) as (IHa & IHb & IHc).
      { right. simpl. rewrite Nat.sub_0_r, Hc. by intros [= ?]. }
      simpl in IHa, IHb.
      assert (((pre ++ [c]) ++ rest) !! length pre = Some c) as Hc'
        by by apply lookup_app_l_Some.
      split; [|split; [|done]].
      * intros s e Hin. destruct (IHa s e Hin) as (Hlo & ? & ? & ? & ?).
        simpl in Hlo |- *. repeat split; try done; lia.
      * intros p Hp Hdash.
        assert (p ≠ length pre) by (intros ->; congruence).
        apply IHb; [lia|done].
Qed.

(** What the pass returns for a whole line. *)
Lemma find_columns_runs line :
  (∀ k s e, find_columns line !! k = Some (s, e) →
     s < e ≤ length line ∧
     (∀ p, s ≤ p < e → line !! p = Some DASH) ∧
     (s = 0 ∨ line !! (s - 1) ≠ Some DASH) ∧
     line !! e ≠ Some DASH ∧
     (∀ s' e', find_columns line !! S k = Some (s', e') → e < s')) ∧
  (∀ p, line !! p = Some DASH →
     ∃ k s e, find_columns line !! k = Some (s, e) ∧ s ≤ p < e).
Proof.
  destruct (find_columns_from_inv line [] None) as (Ha & Hb & Hc);
    [by left|].
  simpl in Ha, Hb, Hc. fold (find_columns line) in Ha, Hb, Hc. split.
  - intros k s e Hk.
    destruct (Ha s e) as (_ & ? & ? & ? & ?);
      [by eapply list_elem_of_lookup_2|].
    repeat split; try done; try lia.
    intros s' e' Hk'. by eapply Hc.
  - intros p Hp. destruct (Hb p) as (s & e & Hin & Hse); [lia|done|].
    apply list_elem_of_lookup_1 in Hin as [k Hk]. by exists k, s, e.
Qed.

(** Spans further right start after the end of spans further left. *)
Lemma find_columns_ordered line k k' s e s' e' :
  find_columns line !! k = Some (s, e) →
  find_columns line !! k' = Some (s', e') →
  k < k' → e < s'.
Proof.
  destruct (find_columns_from_inv line [] None) as (Ha & _ & Hc);
    [by left|].
  simpl in Ha, Hc. fold (find_columns line) in Ha, Hc.
  intros Hk Hk' Hlt. revert s' e' Hk'.
  induction Hlt as [|k' Hle IH]; intros s' e' Hk'.
  - by eapply Hc.
  - destruct (lookup_lt_is_Some_2 (find_columns line) k') as [[s2 e2] H2].
    { apply lookup_lt_Some in Hk'. lia. }
    specialize (IH s2 e2 H2). specialize (Hc k' s2 e2 s' e' H2 Hk').
    destruct (Ha s2 e2) as (_ & ? & _); [by eapply list_elem_of_lookup_2|].
    lia.
Qed.

(** X1. The columns of a line are its maximal runs of dashes, from left to
    right: each span is not empty, lies in the line, holds dashes only and
    has no dash right before or right after it; a span further right
    starts at least one character after the end of a span further left;
    and every dash of the line is in a span. *)
Theorem find_columns_maximal_runs line :
  (∀ k s e, find_columns line !! k = Some (s, e) →
     s < e ≤ length line ∧
     (∀ p, s ≤ p < e → line !! p = Some DASH) ∧
     (s = 0 ∨ line !! (s - 1) ≠ Some DASH) ∧
     line !! e ≠ Some DASH ∧
     (∀ k' s' e', k < k' → find_columns line !! k' = Some (s', e') →
                  e < s')) ∧
  (∀ p, line !! p = Some DASH →
     ∃ k s e, find_columns line !! k = Some (s, e) ∧ s ≤ p < e).
Proof.
  destruct (find_columns_runs line) as [Hspan Hcover]. split; [|done].
  intros k s e Hk. destruct (Hspan k s e Hk) as (? & ? & ? & ? & _).
  do 4 (split; [done|]). intros k' s' e' Hlt Hk'.
  by eapply (find_columns_ordered line k k').
Qed.

Lemma gap_spans_lookup columns (gap : span) :
  gap ∈ gap_spans columns →
  ∃ k (ci cj : span),
    columns !! k = Some ci ∧ columns !! S k = Some cj ∧ gap = (ci.2, cj.1).
Proof.
  induction columns as [|c0 [|c1 rest] IH]; simpl.
  - by intros ?%elem_of_nil.
  - by intros ?%elem_of_nil.
  - intros [->|Hin]%elem_of_cons.
    + by exists 0, c0, c1.
    + destruct (IH Hin) as (k & ci & cj & ? & ? & ?). by exists (S k), ci, cj.
Qed.

(** X2. The Gap Spans of a line's own columns are not empty and hold no
    dash of that line; so a line of dashes and spaces has spaces in all its
    own gaps: a separator passes the header check of its own geometry. *)
Theorem own_gaps_dash_free line :
  (∀ (gap : span), gap ∈ gap_spans (find_columns line) →
     gap.1 < gap.2 ≤ length line ∧
     ∀ p, gap.1 ≤ p < gap.2 → line !! p ≠ Some DASH) ∧
  (Forall (λ c, c = DASH ∨ c = SPACE) line →
   is_valid_header_line line (find_columns line)
                        (gap_spans (find_columns line)) = true).
Proof.
  assert (∀ (gap : span), gap ∈ gap_spans (find_columns line) →
            gap.1 < gap.2 ≤ length line ∧
            ∀ p, gap.1 ≤ p < gap.2 → line !! p ≠ Some DASH) as Hgaps.
  { intros gap (k & [s e] & [s' e'] & Hk & Hk' & ->)%gap_spans_lookup. simpl.
    destruct (find_columns_runs line) as [Hspan Hcover].
    destruct (Hspan k s e Hk) as (? & _ & _ & _ & Hnext).
    destruct (Hspan (S k) s' e' Hk') as (? & _).
    split; [specialize (Hnext s' e' Hk'); lia|].
    intros p Hp Hdash. destruct (Hcover p Hdash) as (j & s2 & e2 & Hj & Hin).
    destruct (decide (j ≤ k)) as [Hle|Hgt].
    - destruct (decide (j = k)) as [->|Hne].
      + rewrite Hk in Hj. injection Hj as <- <-. lia.
      + assert (e2 < s) by (eapply (find_columns_ordered line j k); [done..|lia]).
        lia.
    - destruct (decide (j = S k)) as [->|Hne].
      + rewrite Hk' in Hj. injection Hj as <- <-. lia.
      + assert (e' < s2)
          by (eapply (find_columns_ordered line (S k) j); [done..|lia]).
        lia. }
  split; [done|]. intros Hchars. apply is_valid_header_line_iff.
  intros gap p Hgap Hp Hlen. destruct (Hgaps gap Hgap) as [_ Hnodash].
  destruct (lookup_lt_is_Some_2 line p Hlen) as [c Hc].
  rewrite Forall_forall in Hchars.
  destruct (Hchars c) as [->| ->]; [by eapply list_elem_of_lookup_2| |done].
  by destruct (Hnodash p Hp).
Qed.

(** ** The data block *)

(** X3. The Data Collector takes the longest run of lines at the start of
    [rest] that are neither blank nor separators: what it returns is a
    prefix of [rest] made of such lines only, and the line after it, if
    there is one, is blank or a separator. *)
Theorem data_collection_contract (rest : list str) :
  ∃ tail,
    rest = collect_data_lines rest ++ tail ∧
    Forall (λ line, blank line = false ∧ is_dash_line line = false)
           (collect_data_lines rest) ∧
    match tail with
    | line :: _ => blank line = true ∨ is_dash_line line = true
    | [] => True
    end.
Proof.
  induction rest as [|line rest (tail & IH1 & IH2 & IH3)]; simpl.
  - by exists [].
  - destruct (blank line) eqn:Hb; [|destruct (is_dash_line line) eqn:Hd].
    + exists (line :: rest). split; [done|]. split; [constructor | by left].
    + exists (line :: rest). split; [done|]. split; [constructor | by right].
    + exists tail. split; [simpl; by f_equal|]. split; [by constructor | done].
Qed.

(** ** The formatter: shape and failure *)

(** With no column at all the formatter does not read [lines]. *)
Lemma process_table_no_columns lines header_indices dash_line_idx data_lines :
  is_Some (process_table lines header_indices dash_line_idx data_lines []).
Proof.
  unfold process_table. simpl.
  destruct (mapM_is_Some_2 (header_row [] [] 0)
              (seq 0 (length header_indices))) as [header_out ->].
  { apply Forall_forall. intros line_idx _. by eexists. }
  simpl.
  destruct (mapM_is_Some_2 (data_row [] [])
              (stripped_rows (raw_rows data_lines []))) as [data_out ->];
    [|done].
  unfold stripped_rows, raw_rows. rewrite <-list_fmap_compose.
  apply Forall_fmap, Forall_forall. intros line _. by eexists.
Qed.

(** X4. [process_table] fails with an [IndexError] exactly when there is a
    column and one of the header indices is not an index of [lines]; when
    it returns, the block has one line per header index, the separator,
    and one line per data line. *)
Theorem process_table_shape lines header_indices dash_line_idx data_lines
    columns :
  (process_table lines header_indices dash_line_idx data_lines columns = None ↔
   columns ≠ [] ∧ Exists (λ idx, length lines ≤ idx) header_indices) ∧
  (∀ out,
     process_table lines header_indices dash_line_idx data_lines columns
       = Some out →
     length out = length header_indices + 1 + length data_lines).
Proof.
  split.
  - split.
    + intros Hnone.
      destruct (decide (columns = [])) as [->|Hne].
      { destruct (process_table_no_columns lines header_indices dash_line_idx
                    data_lines) as [out Hout]. congruence. }
      split; [done|].
      destruct (decide (Forall (λ idx, idx < length lines) header_indices))
        as [Hall|Hnot].
      * destruct (mapM_is_Some_2 (λ idx, lines !! idx) header_indices)
          as [header_lines Hhl].
        { eapply Forall_impl; [exact Hall|]. intros idx Hidx. simpl.
          by apply lookup_lt_is_Some_2. }
        rewrite (process_table_spec _ _ _ _ _ _ Hhl) in Hnone. done.
      * apply not_Forall_Exists in Hnot; [|apply _].
        eapply Exists_impl; [exact Hnot|]. simpl. intros idx. lia.
    + intros [Hne Hex]. unfold process_table.
      assert (extract_multiline_headers lines header_indices columns = None)
        as ->; [|done].
      unfold extract_multiline_headers. apply mapM_None_2.
      destruct columns as [|col columns]; [done|]. apply Exists_cons_hd.
      apply mapM_None_2. eapply Exists_impl; [exact Hex|]. simpl.
      intros idx Hidx. by rewrite (lookup_ge_None_2 lines idx).
  - intros out. unfold process_table.
    destruct (extract_multiline_headers _ _ _) as [header_texts|]; [|done].
    simpl. destruct (column_justifications _ _) as [js|]; [|done]. simpl.
    destruct (column_widths _ _ _) as [ws|]; [|done]. simpl.
    destruct (mapM (header_row _ _ _) _) as [header_out|] eqn:Hh; [|done].
    simpl. destruct (dash_row _ _) as [dash_out|]; [|done]. simpl.
    destruct (mapM (data_row _ _) _) as [data_out|] eqn:Hd; [|done].
    simpl. intros [= <-].
    apply mapM_Some_1, Forall2_length in Hh, Hd.
    rewrite length_seq in Hh. unfold stripped_rows, raw_rows in Hd.
    rewrite !length_fmap in Hd. rewrite !length_app. simpl. lia.
Qed.

(** ** The rendered table is never wider *)

Lemma length_rstrip (s : str) : length (rstrip s) ≤ length s.
Proof.
  destruct (rstrip_split s) as [ws [E _]].
  rewrite E at 2. rewrite length_app. lia.
Qed.

Lemma length_cell line col : length (cell line col) ≤ col.2 - col.1.
Proof.
  unfold cell, strip. rewrite extract_value_take_drop.
  etrans; [apply length_rstrip|]. etrans; [apply length_lstrip|].
  rewrite length_take. lia.
Qed.

Lemma width_of_le_span header_lines data_lines col :
  width_of header_lines data_lines col ≤ col.2 - col.1.
Proof.
  destruct (width_attained header_lines data_lines col)
    as [->|(line & _ & <-)]; [lia | apply length_cell].
Qed.

Lemma length_join (parts : list str) :
  length (join [SPACE] parts) + 1 = sum_list (length <$> parts) + length parts
  ∨ parts = [].
Proof.
  induction parts as [|p parts IH]; [by right|]. left.
  destruct parts as [|q parts]; [simpl; lia|].
  rewrite join_cons by done. destruct IH as [IH|?]; [|done].
  rewrite !length_app. simpl in *. lia.
Qed.

(** Spans and the characters between them fit in the line. *)
Lemma find_columns_from_total rest i (start : option nat) :
  (∀ st, start = Some st → st ≤ i) →
  sum_list ((λ col : span, col.2 - col.1) <$> find_columns_from rest i start)
    + length (find_columns_from rest i start)
  ≤ length rest + 1 + from_option (λ st, i - st) 0 start.
Proof.
  revert i start. induction rest as [|c rest IH]; intros i start Hst.
  - destruct start as [st|]; simpl; lia.
  - destruct start as [st|]; simpl; destruct (is_dash c).
    + specialize (Hst st eq_refl).
      etrans; [apply (IH (S i) (Some st))|]; [intros ? [= <-]; lia|].
      simpl. lia.
    + pose proof (IH (S i) None ltac:(by intros)) as H.
      rewrite fmap_cons. simpl in H |- *. lia.
    + etrans; [apply (IH (S i) (Some i))|]; [intros ? [= <-]; lia|].
      simpl. lia.
    + etrans; [apply (IH (S i) None)|]; [by intros|]. simpl. lia.
Qed.

Lemma sum_list_fmap_le {A} (f g : A → nat) (l : list A) :
  (∀ x, f x ≤ g x) → sum_list (f <$> l) ≤ sum_list (g <$> l).
Proof.
  intros H. induction l as [|x l IH]; [done|].
  rewrite !fmap_cons. specialize (H x). simpl. lia.
Qed.

Lemma length_join_same (ps qs : list str) :
  Forall2 (λ p q : str, length p = length q) ps qs →
  length (join [SPACE] ps) = length (join [SPACE] qs).
Proof.
  induction 1 as [|p q ps qs Hpq HF IH]; [done|].
  destruct HF as [|p' q' ps qs Hpq' HF]; [done|].
  rewrite (join_cons _ p), (join_cons _ q) by done.
  by rewrite !length_app, IH, Hpq.
Qed.

Lemma length_render_dash_line header_lines data_lines dash_line :
  length (render_dash_line header_lines data_lines (find_columns dash_line))
  ≤ length dash_line.
Proof.
  unfold render_dash_line.
  destruct (length_join (dash_parts header_lines data_lines
                                    (find_columns dash_line))) as [Hl|Hnil].
  - unfold dash_parts in Hl. rewrite <-list_fmap_compose, length_fmap in Hl.
    pose proof (find_columns_from_total dash_line 0 None ltac:(by intros))
      as Htot. fold (find_columns dash_line) in Htot. simpl in Htot.
    pose proof (sum_list_fmap_le
                  (length ∘ (λ col, replicate
                                      (width_of header_lines data_lines col)
                                      DASH))
                  (λ col : span, col.2 - col.1) (find_columns dash_line))
      as Hsum.
    unfold dash_parts. lapply Hsum; [lia|].
    intros col. simpl. rewrite length_replicate. apply width_of_le_span.
  - rewrite Hnil. simpl. lia.
Qed.

Lemma render_table_not_wider (H R : list str) dash_line :
  Forall (λ rendered, length rendered ≤ length dash_line)
         (render_table H R (find_columns dash_line)).
Proof.
  unfold render_table.
  pose proof (length_render_dash_line H R dash_line) as Hdash.
  apply Forall_app. split; [|apply Forall_cons; split; [done|]].
  - apply Forall_fmap, Forall_forall. intros line Hin. simpl.
    unfold render_header_line. etrans; [apply length_rstrip|].
    etrans; [|exact Hdash]. unfold render_dash_line.
    apply Nat.eq_le_incl, length_join_same.
    pose proof (header_parts_widths H R (find_columns dash_line) line Hin)
      as HF.
    unfold dash_parts. apply Forall2_fmap_r.
    apply Forall2_fmap_r in HF.
    eapply Forall2_impl; [exact HF|]. simpl. intros p col ->.
    by rewrite length_replicate.
  - apply Forall_fmap, Forall_forall. intros line Hin. simpl.
    unfold render_data_line. etrans; [apply length_rstrip|].
    etrans; [|exact Hdash]. unfold render_dash_line.
    apply Nat.eq_le_incl, length_join_same.
    pose proof (data_parts_widths H R (find_columns dash_line) line Hin)
      as HF.
    unfold dash_parts. apply Forall2_fmap_r.
    apply Forall2_fmap_r in HF.
    eapply Forall2_impl; [exact HF|]. simpl. intros p col ->.
    by rewrite length_replicate.
Qed.

(** X5. The filter never widens a table: for the columns of a separator
    line, no column width exceeds the length of its span, and every line
    of the block that [process_table] or the header-only branch returns
    is at most as long as the rendered separator, which is at most as long
    as the separator of the input. *)
Theorem table_block_not_wider lines header_indices header_lines dash_line_idx
    data_lines dash_line :
  mapM (λ idx, lines !! idx) header_indices = Some header_lines →
  ∃ block block0,
    process_table lines header_indices dash_line_idx data_lines
                  (find_columns dash_line) = Some block ∧
    header_only_table lines header_indices (find_columns dash_line)
      = Some block0 ∧
    Forall (λ rendered, length rendered ≤ length dash_line) (block ++ block0) ∧
    Forall (λ col, width_of header_lines data_lines col ≤ col.2 - col.1)
           (find_columns dash_line).
Proof.
  intros Hhl. eexists _, _.
  split; [by apply process_table_spec|].
  split; [by apply header_only_table_spec|].
  split; [|apply Forall_forall; intros col _; apply width_of_le_span].
  apply Forall_app. split; apply render_table_not_wider.
Qed.

Lemma table_block_not_wider_witness :
  ∃ block block0,
    process_table [py "NAME    AGE"; py "------  ---"; py "Bob       5"]
                  [0] 1 [py "Bob       5"] (find_columns (py "------  ---"))
      = Some block ∧
    header_only_table [py "NAME    AGE"; py "------  ---"; py "Bob       5"]
                      [0] (find_columns (py "------  ---")) = Some block0 ∧
    Forall (λ rendered, length rendered ≤ length (py "------  ---"))
           (block ++ block0).
Proof.
  destruct (table_block_not_wider
              [py "NAME    AGE"; py "------  ---"; py "Bob       5"]
              [0] [py "NAME    AGE"] 1 [py "Bob       5"] (py "------  ---")
              eq_refl)
    as (block & block0 & H1 & H2 & H3 & _).
  exists block, block0. split; [exact H1|]. split; [exact H2 | exact H3].
Defined.

(** ** Reading a rendered table *)

Lemma dash_row_widths (widths : list nat) :
  dash_row widths (length widths)
  = Some (join [SPACE] ((λ w, replicate w DASH) <$> widths)).
Proof.
  unfold dash_row.
  rewrite (mapM_seq_Some _ _ ((λ w, replicate w DASH) <$> widths));
    [done | by rewrite length_fmap |].
  intros i part. rewrite list_lookup_fmap.
  destruct (widths !! i) as [w|]; [|done]. simpl. by intros [= <-].
Qed.

Lemma spans_from_widths a (widths : list nat) :
  (λ col : span, col.2 - col.1) <$> spans_from a widths = widths.
Proof.
  revert a. induction widths as [|w widths IH]; intros a; [done|].
  simpl. rewrite IH. f_equal. lia.
Qed.

(** X6. A rendered separator is found again as a separator with the
    columns it was rendered from: for positive widths, the line that
    [dash_row] builds is a Separator Line, its columns have exactly these
    widths, the first one starts at 0 and the gaps are one space wide. *)
Theorem rendered_separator_columns (widths : list nat) :
  widths ≠ [] → Forall (λ w, 0 < w) widths →
  ∃ dash_line,
    dash_row widths (length widths) = Some dash_line ∧
    is_dash_line dash_line = true ∧
    find_columns dash_line = spans_from 0 widths ∧
    (λ col : span, col.2 - col.1) <$> find_columns dash_line = widths ∧
    (∀ gap : span, gap ∈ gap_spans (find_columns dash_line) →
                   gap.2 = gap.1 + 1).
Proof.
  intros Hne Hpos. eexists. split; [apply dash_row_widths|].
  rewrite find_columns_dash_row by done.
  split; [|split; [done|split; [apply spans_from_widths|]]].
  - assert (Forall (λ c, c = DASH ∨ c = SPACE)
                   (join [SPACE] ((λ w, replicate w DASH) <$> widths)))
      as Hall.
    { apply Forall_join; [by repeat constructor|].
      apply Forall_fmap, Forall_forall. intros w _. simpl.
      apply Forall_replicate. by left. }
    assert (DASH ∈ join [SPACE] ((λ w, replicate w DASH) <$> widths)) as Hin.
    { destruct widths as [|w widths]; [done|].
      apply Forall_cons_1 in Hpos as [Hw _]. rewrite fmap_cons.
      destruct w as [|w]; [lia|]. destruct widths; simpl; left. }
    apply is_dash_line_iff.
    + intros Hnl. rewrite Forall_forall in Hall. by destruct (Hall _ Hnl).
    + split; [|done]. apply blank_false. by exists DASH.
  - intros gap Hgap.
    by destruct (gap_spans_spans_from _ _ _ Hgap) as (_ & _ & _ & ? & _).
Qed.

Lemma rendered_separator_columns_witness :
  ∃ dash_line,
    dash_row [4; 1; 7] 3 = Some dash_line ∧
    (λ col : span, col.2 - col.1) <$> find_columns dash_line = [4; 1; 7].
Proof.
  destruct (rendered_separator_columns [4; 1; 7])
    as (dash_line & H1 & _ & _ & H2 & _).
  - done.
  - repeat constructor.
  - exists dash_line. split; [exact H1 | exact H2].
Defined.

(** X7. Rendering loses no cell: when every column keeps a positive width,
    the separator of the rendered table has a column for each column of
    the input, as wide as the computed width, and every header and data
    cell read from the rendered line at that column is the cell of the
    input line. *)
Theorem rendering_keeps_cells header_lines data_lines columns i col :
  Forall (λ col, 0 < width_of header_lines data_lines col) columns →
  columns !! i = Some col →
  ∃ col' : span,
    find_columns (render_dash_line header_lines data_lines columns) !! i
      = Some col' ∧
    col'.2 - col'.1 = width_of header_lines data_lines col ∧
    (∀ line, line ∈ header_lines →
       cell (render_header_line header_lines data_lines columns line) col'
       = cell line col) ∧
    (∀ line, line ∈ data_lines →
       cell (render_data_line header_lines data_lines columns line) col'
       = cell line col).
Proof.
  intros Hpos Hc. rewrite find_columns_render_dash_line by done.
  destruct (canon_lookup header_lines data_lines columns i col Hc)
    as [col' Hc'].
  exists col'. split; [done|]. split; [|split].
  - pose proof (spans_from_widths 0 (width_of header_lines data_lines <$> columns))
      as Hw.
    apply (f_equal (λ l, l !! i)) in Hw.
    rewrite !list_lookup_fmap, Hc, Hc' in Hw. simpl in Hw. by injection Hw.
  - intros line Hin. by apply (cell_render_header_line _ _ _ _ i).
  - intros line Hin. by apply (cell_render_data_line _ _ _ _ i).
Qed.

Lemma rendering_keeps_cells_witness :
  ∃ col' : span,
    find_columns (render_dash_line [py "NAME    AGE"] [py "Bob       5"]
                                   [(0, 6); (8, 11)]) !! 1 = Some col' ∧
    cell (render_data_line [py "NAME    AGE"] [py "Bob       5"]
                           [(0, 6); (8, 11)] (py "Bob       5")) col'
    = cell (py "Bob       5") (8, 11).
Proof.
  destruct (rendering_keeps_cells [py "NAME    AGE"] [py "Bob       5"]
              [(0, 6); (8, 11)] 1 (8, 11))
    as (col' & H1 & _ & _ & H2).
  - vm_compute. repeat constructor.
  - reflexivity.
  - exists col'. split; [exact H1|]. apply H2. left.
Defined.

(** X8. Rendering keeps the justification when every column keeps a
    positive width: the rendered separator has a column for each column
    of the input, and read from the rendered data lines at that column
    the justification is the one detected in the input, unless the column
    was right-justified and every one of its cells is empty or fills the
    column, in which case both paddings give the same lines. *)
Theorem rendering_keeps_justification header_lines data_lines columns i col :
  Forall (λ col, 0 < width_of header_lines data_lines col) columns →
  columns !! i = Some col →
  ∃ col' : span,
    find_columns (render_dash_line header_lines data_lines columns) !! i
      = Some col' ∧
    (justification_of
       (render_data_line header_lines data_lines columns <$> data_lines) col'
     = justification_of data_lines col ∨
     (justification_of data_lines col = Right ∧
      ∀ line, line ∈ data_lines →
        rjust (cell line col) (width_of header_lines data_lines col)
        = ljust (cell line col) (width_of header_lines data_lines col))).
Proof.
  intros Hpos Hc. rewrite find_columns_render_dash_line by done.
  destruct (canon_lookup header_lines data_lines columns i col Hc)
    as [col' Hc'].
  exists col'. split; [done|].
  destruct (justification_of_rendered header_lines data_lines columns i col
              col' Hc Hc') as [?|(? & _ & ?)]; [by left | by right].
Qed.

Lemma rendering_keeps_justification_witness :
  ∃ col' : span,
    find_columns (render_dash_line [py "NAME    AGE"]
                    [py "Bob       5"; py "Al       30"]
                    [(0, 6); (8, 11)]) !! 1 = Some col' ∧
    justification_of
      (render_data_line [py "NAME    AGE"] [py "Bob       5"; py "Al       30"]
                        [(0, 6); (8, 11)]
         <$> [py "Bob       5"; py "Al       30"]) col' = Right.
Proof.
  destruct (rendering_keeps_justification [py "NAME    AGE"]
              [py "Bob       5"; py "Al       30"] [(0, 6); (8, 11)] 1 (8, 11))
    as (col' & H1 & [H2|[_ H2]]).
  - vm_compute. repeat constructor.
  - reflexivity.
  - exists col'. split; [exact H1|]. rewrite H2. reflexivity.
  - specialize (H2 (py "Bob       5") ltac:(left)). discriminate H2.
Defined.

(** ** Texts without tables *)

(** X9. A text without Separator Line is passed through: the scanning loop
    prints nothing and marks nothing, the closing loop prints every line,
    and [main] writes the lines it read. *)
Theorem no_separator_passthrough lines :
  Forall (λ line, is_dash_line line = false) lines →
  main_loop (length lines) lines 0 (State ∅ ∅ []) = Some (State ∅ ∅ []) ∧
  transform lines = Some lines ∧
  (∀ content, read_lines content = lines →
              main content = Some (write_lines lines)).
Proof.
  intros Hno.
  assert (main_loop (length lines) lines 0 (State ∅ ∅ [])
          = Some (State ∅ ∅ [])) as Hloop.
  { replace (length lines) with (length lines + 0) at 1 by lia.
    rewrite main_loop_skip; [by apply main_loop_end|].
    intros k Hk.
    destruct (lookup_lt_is_Some_2 lines k) as [line Hline]; [lia|].
    exists line. split; [done|]. by apply (Forall_lookup_1 _ _ _ _ Hno Hline). }
  assert (transform lines = Some lines) as Ht.
  { unfold transform. rewrite Hloop. cbn [mbind option_bind].
    unfold output_lines.
    rewrite (mapM_seq_untouched _ 0 lines).
    - cbn [mbind option_bind mret option_ret]. by rewrite concat_singletons.
    - intros i line Hline. unfold output_at. simpl.
      rewrite lookup_empty, bool_decide_eq_false_2 by apply not_elem_of_empty.
      by rewrite Hline. }
  split; [done|]. split; [done|].
  intros content Hc. unfold main. by rewrite Hc, Ht.
Qed.

Lemma no_separator_passthrough_witness :
  transform [py "SELECT 1"; []; py "a - b"]
  = Some [py "SELECT 1"; []; py "a - b"].
Proof.
  apply (no_separator_passthrough [py "SELECT 1"; []; py "a - b"]).
  repeat constructor.
Defined.

(** ** Reading and writing *)

Lemma split_nl_nonempty (s : str) : split_nl s ≠ [].
Proof.
  destruct s as [|c s]; [done|]. simpl.
  destruct (c =? NL)%N; [done|]. by destruct (split_nl s).
Qed.

Lemma write_lines_cons (line : str) (out : list str) :
  write_lines (line :: out) = line ++ NL :: write_lines out.
Proof. unfold write_lines. rewrite fmap_cons. simpl. by rewrite <-app_assoc. Qed.

Lemma write_lines_split_nl (s : str) : write_lines (split_nl s) = s ++ [NL].
Proof.
  induction s as [|c s IH]; [done|].
  change (split_nl (c :: s))
    with (if (c =? NL)%N then [] :: split_nl s
          else match split_nl s with
               | cur :: r => (c :: cur) :: r
               | [] => [[c]]
               end).
  destruct (N.eqb_spec c NL) as [->|_].
  - rewrite write_lines_cons, IH. done.
  - pose proof (split_nl_nonempty s) as Hne.
    destruct (split_nl s) as [|cur r]; [done|].
    rewrite write_lines_cons in IH |- *. simpl. by rewrite IH.
Qed.

Lemma last_split_nl (s : str) :
  last (split_nl s) = Some [] ↔ s = [] ∨ last s = Some NL.
Proof.
  induction s as [|c s IH]; [by split; [left|]|].
  change (split_nl (c :: s))
    with (if (c =? NL)%N then [] :: split_nl s
          else match split_nl s with
               | cur :: r => (c :: cur) :: r
               | [] => [[c]]
               end).
  pose proof (split_nl_nonempty s) as Hne.
  destruct (N.eqb_spec c NL) as [->|Hc].
  - destruct (split_nl s) as [|cur r] eqn:E; [done|].
    rewrite last_cons_cons, IH. split.
    + intros [->|H]; right; [done|]. destruct s; [done|].
      by rewrite last_cons_cons.
    + intros [?|H]; [done|]. destruct s as [|d s]; [by left|].
      right. by rewrite last_cons_cons in H.
  - destruct (split_nl s) as [|cur r] eqn:E; [done|].
    destruct r as [|cur' r].
    + split; [done|]. intros [?|H]; [done|].
      destruct s as [|d s]; [simpl in H; congruence|].
      destruct IH as [_ IH]. specialize (IH (or_intror H)).
      injection IH as ->.
      pose proof (write_lines_split_nl (d :: s)) as Hw. rewrite E in Hw.
      by destruct s.
    + rewrite last_cons_cons.
      assert (last (cur :: cur' :: r) = last (cur' :: r)) as E'
        by apply last_cons_cons.
      rewrite E' in IH. rewrite IH. split.
      * intros [->|H]; [done|]. right. destruct s; [done|].
        by rewrite last_cons_cons.
      * intros [?|H]; [done|]. destruct s as [|d s]; [simpl in H; congruence|].
        right. by rewrite last_cons_cons in H.
Qed.

(** X10. What [main] reads and writes back: for a text without carriage
    return that does not start with a byte-order mark, the lines read,
    written one per line, are the text itself when it is empty or ends in
    a newline, and the text with the missing final newline otherwise. *)
Theorem write_read_lines content :
  Forall (λ c, c ≠ CR) content → head content ≠ Some BOM →
  write_lines (read_lines content)
  = if bool_decide (content = [] ∨ last content = Some NL) then content
    else content ++ [NL].
Proof.
  intros Hcr Hbom. unfold read_lines.
  assert (match content with
          | c :: content' => if (c =? BOM)%N then content' else content
          | [] => content
          end = content) as ->.
  { destruct content as [|c w]; [done|].
    destruct (N.eqb_spec c BOM) as [->|_]; [by destruct Hbom | done]. }
  rewrite replace_crlf_id, replace_cr_id by done.
  pose proof (write_lines_split_nl content) as Hw.
  pose proof (last_split_nl content) as Hl.
  case_bool_decide as Hend.
  - apply Hl in Hend. rewrite Hend.
    destruct (split_nl content) as [|l ls] eqn:E using rev_ind;
      [done|]. clear IHls.
    rewrite last_snoc in Hend. injection Hend as ->.
    rewrite removelast_last. unfold write_lines in Hw |- *.
    rewrite fmap_app, concat_app in Hw. simpl in Hw.
    by apply (inj (λ x, x ++ [NL])) in Hw.
  - destruct (last (split_nl content)) as [[|c l]|] eqn:E; [|done..].
    destruct Hend. by apply Hl.
Qed.

Lemma write_read_lines_witness :
  write_lines (read_lines (py "a" ++ [NL] ++ py "b")) = py "a" ++ [NL] ++ py "b" ++ [NL].
Proof.
  apply (write_read_lines (py "a" ++ [NL] ++ py "b")).
  - repeat constructor; discriminate.
  - discriminate.
Defined.

(** ** The scanning loop as a whole *)

Lemma main_step_invariant lines i st i' st' :
  i < length lines → scan_invariant lines i st →
  main_step lines i st = Some (i', st') →
  i < i' ∧ scan_invariant lines i' st'.
Proof.
  intros Hi (_ & Hcons & Hmap & Hout) Hstep.
  destruct (lookup_lt_is_Some_2 lines i Hi) as [line Hline].
  destruct (main_step_spec lines i st line Hline)
    as [[Hd E]|(Hd & top & Htop & _ & _ & _ & [[_ E]|[Hlt E]])];
    rewrite E in Hstep; injection Hstep as <- <-.
  - split; [lia|]. split; [lia|]. split; [|split].
    + intros k Hk. destruct (Hcons k Hk) as [? ?]. split; [lia | done].
    + intros a block Hb.
      destruct (Hmap a block Hb) as (? & d & dl & ? & ? & ? & ?).
      split; [done|]. exists d, dl. split; [lia | done].
    + intros l Hl. destruct (Hout l Hl) as (d & ? & ?). exists d.
      split; [lia | done].
  - split; [lia|]. split; [lia|]. split; [|split].
    + intros k Hk. destruct (Hcons k Hk) as [? ?]. split; [lia | done].
    + intros a block Hb.
      destruct (Hmap a block Hb) as (? & d & dl & ? & ? & ? & ?).
      split; [done|]. exists d, dl. split; [lia | done].
    + intros l. simpl. intros [Hl| ->%list_elem_of_singleton]%elem_of_app.
      * destruct (Hout l Hl) as (d & ? & ?). exists d. split; [lia | done].
      * exists i. split; [lia | done].
  - pose proof (length_collect_data_lines (drop (i + 1) lines)) as Hlen.
    rewrite length_drop in Hlen.
    set (data_lines := collect_data_lines (drop (i + 1) lines)) in *.
    split; [lia|]. split; [lia|]. unfold table_state. simpl.
    split; [|split].
    + intros k.
      rewrite !elem_of_union, !elem_of_list_to_set, !elem_of_seq,
        elem_of_singleton.
      intros [[[Hk|Hk]|Hk]|Hk].
      * destruct (Hcons k Hk) as (? & a & ? & Ha). split; [lia|].
        exists a. split; [done|]. apply lookup_insert_is_Some.
        destruct (decide (top = a)); [by left | by right].
      * split; [lia|]. exists top. split; [lia|].
        rewrite lookup_insert_eq. by eexists.
      * split; [lia|]. exists top. split; [lia|].
        rewrite lookup_insert_eq. by eexists.
      * split; [lia|]. exists top. split; [lia|].
        rewrite lookup_insert_eq. by eexists.
    + intros a block [[<- <-]|[Hne Hb]]%lookup_insert_Some.
      * split.
        { rewrite !elem_of_union, !elem_of_list_to_set, !elem_of_seq. lia. }
        exists i, line. split; [lia | done].
      * destruct (Hmap a block Hb) as (? & d & dl & ? & ? & ? & ?).
        split; [rewrite !elem_of_union; by do 3 left|].
        exists d, dl. split; [lia | done].
    + intros l Hl. destruct (Hout l Hl) as (d & ? & ?). exists d.
      split; [lia | done].
Qed.

Lemma main_loop_invariant fuel lines i st st' :
  scan_invariant lines i st →
  main_loop fuel lines i st = Some st' →
  scan_invariant lines (length lines) st'.
Proof.
  revert i st. induction fuel as [|fuel IH]; intros i st Hinv; simpl.
  - case_bool_decide as Hi; [done|]. intros [= <-].
    destruct Hinv as [Hle ?]. by replace (length lines) with i by lia.
  - case_bool_decide as Hi.
    + destruct (main_step lines i st) as [[i' st'']|] eqn:E; [|done].
      destruct (main_step_invariant lines i st i' st'' Hi Hinv E) as [_ ?].
      by apply IH.
    + intros [= <-].
      destruct Hinv as [Hle ?]. by replace (length lines) with i by lia.
Qed.

Lemma scan_invariant_init lines : scan_invariant lines 0 (State ∅ ∅ []).
Proof.
  split; [lia|]. simpl. split; [|split].
  - by intros k ?%elem_of_empty.
  - intros a block. by rewrite lookup_empty.
  - by intros line ?%elem_of_nil.
Qed.

(** X11. The scanning loop of [main], started on any lines, ends within
    [len(lines)] iterations in a state where: every consumed index is an
    index of the input and has an entry of [output_map] at or above it, so
    no line is dropped without a block printed in its place; every entry
    of [output_map] sits at a consumed index and is the rendering of a
    table whose Separator Line is a line of the input; and every line
    printed during the scan is a Separator Line of the input. *)
Theorem scan_invariants lines :
  ∃ st,
    main_loop (length lines) lines 0 (State ∅ ∅ []) = Some st ∧
    scan_invariant lines (length lines) st.
Proof.
  destruct (main_loop_total (length lines) lines 0 (State ∅ ∅ []))
    as [st Hst]; [lia..|].
  exists st. split; [done|].
  eapply main_loop_invariant; [apply scan_invariant_init | done].
Qed.

Lemma elem_of_collect_data_lines (rest : list str) line :
  line ∈ collect_data_lines rest → line ∈ rest.
Proof.
  induction rest as [|l rest IH]; simpl; [done|].
  destruct (blank l); [by intros ?%elem_of_nil|].
  destruct (is_dash_line l); [by intros ?%elem_of_nil|].
  intros [->|H]%elem_of_cons; [left | right; by apply IH].
Qed.

(** A property of lines that holds of the input and of every rendering of
    a table of the input holds of the output. *)
Lemma transform_lines_from (Q : str → Prop) lines :
  Forall Q lines →
  (∀ a d dash_line,
     a < d → lines !! d = Some dash_line → is_dash_line dash_line = true →
     Forall Q (render_table (take (d - a) (drop a lines))
                            (collect_data_lines (drop (d + 1) lines))
                            (find_columns dash_line))) →
  ∃ out, transform lines = Some out ∧ Forall Q out.
Proof.
  intros Hin Htab.
  destruct (main_loop_total (length lines) lines 0 (State ∅ ∅ []))
    as [st Hst]; [lia..|].
  pose proof (main_loop_invariant _ _ _ _ _ (scan_invariant_init lines) Hst)
    as (_ & _ & Hmap & Hout).
  unfold transform. rewrite Hst. cbn [mbind option_bind]. unfold output_lines.
  destruct (mapM (output_at lines st) (seq 0 (length lines)))
    as [blocks|] eqn:Hblocks.
  2:{ destruct (output_lines_total lines st) as [out Ho].
      unfold output_lines in Ho. by rewrite Hblocks in Ho. }
  cbn [mbind option_bind mret option_ret]. eexists. split; [done|].
  rewrite Forall_forall in Hin.
  apply Forall_app. split.
  - apply Forall_forall. intros line Hl.
    destruct (Hout line Hl) as (d & _ & Hd & _).
    apply Hin. by eapply list_elem_of_lookup_2.
  - apply Forall_concat. apply mapM_Some_1 in Hblocks.
    apply Forall_forall. intros block Hb.
    apply list_elem_of_lookup_1 in Hb as [k Hk].
    destruct (Forall2_lookup_r _ _ _ _ _ Hblocks Hk) as (i & _ & Hi).
    unfold output_at in Hi.
    destruct (output_map st !! i) as [formatted|] eqn:Hm.
    + injection Hi as <-.
      destruct (Hmap i formatted Hm) as (_ & d & dl & [? _] & ? & ? & ->).
      by apply Htab.
    + case_bool_decide; [by injection Hi as <-|].
      destruct (lines !! i) as [line|] eqn:Hline; [|done].
      injection Hi as <-. repeat constructor.
      apply Hin. by eapply list_elem_of_lookup_2.
Qed.

(** X12. The filter never widens a text: every line of the output of the
    transform is at most as long as the longest line of the input. *)
Theorem transform_not_wider lines :
  ∃ out, transform lines = Some out ∧
         Forall (λ rendered, length rendered ≤ max_len lines) out.
Proof.
  apply transform_lines_from.
  - apply Forall_forall. intros line Hin. by apply max_len_ge.
  - intros a d dash_line _ Hd _.
    eapply Forall_impl; [apply render_table_not_wider|]. simpl.
    intros rendered Hr. etrans; [exact Hr|].
    apply max_len_ge. by eapply list_elem_of_lookup_2.
Qed.

(** X13. The filter brings in no character: a character of an output line
    is a space, a dash or a character of some input line. *)
Theorem transform_no_new_character lines :
  ∃ out, transform lines = Some out ∧
         ∀ rendered c, rendered ∈ out → c ∈ rendered →
                       c = SPACE ∨ c = DASH ∨ ∃ line, line ∈ lines ∧ c ∈ line.
Proof.
  set (P := λ c : N, c = SPACE ∨ c = DASH ∨ ∃ line, line ∈ lines ∧ c ∈ line).
  assert (∀ sub : list str,
            (∀ line, line ∈ sub → line ∈ lines) → Forall (Forall P) sub)
    as Hsub.
  { intros sub Hs. apply Forall_forall. intros line Hl.
    apply Forall_forall. intros c Hc. right. right. exists line.
    split; [by apply Hs | done]. }
  destruct (transform_lines_from (Forall P) lines) as (out & Ho & Hall).
  - by apply Hsub.
  - intros a d dash_line _ _ _.
    apply Forall_render_table; [by left | by right; left |].
    apply Hsub. intros line [Hl|Hl]%elem_of_app.
    + by eapply subseteq_drop, subseteq_take.
    + by eapply subseteq_drop, elem_of_collect_data_lines.
  - exists out. split; [done|]. intros rendered c Hr Hc.
    rewrite Forall_forall in Hall. specialize (Hall rendered Hr).
    rewrite Forall_forall in Hall. by apply Hall.
Qed.

(** ** The branches of one scanning step *)

(** X14. When the scan stands on a Separator Line, it takes the branch "no
    valid header found" (the line is printed at once, nothing is marked
    and the scan moves one line down) exactly when the separator is the
    first line or the line right above it is not accepted as a header
    line; otherwise the step leaves what was printed as it is. *)
Theorem separator_without_header lines i st line :
  lines !! i = Some line → is_dash_line line = true →
  (main_step lines i st = Some (i + 1, print line st) ↔
   (i = 0 ∨ ∃ above, lines !! (i - 1) = Some above ∧
                     ¬ header_accepted above (gap_spans (find_columns line))))
  ∧ (∀ i' st', main_step lines i st = Some (i', st') →
               stdout st' = stdout st ∨ st' = print line st).
Proof.
  intros Hline Hd.
  destruct (main_step_spec lines i st line Hline)
    as [[? _]|(_ & top & Htop & _ & Hall & Hstop & Hstep)]; [congruence|].
  split; [split|].
  - intros E. destruct Hstep as [[-> _]|[_ E']].
    + destruct Hstop as [?|?]; [by left | by right].
    + rewrite E in E'. injection E' as _ _ _ Hout.
      apply (f_equal length) in Hout. rewrite length_app in Hout.
      simpl in Hout. lia.
  - intros Hno. destruct Hstep as [[_ ?]|[Hlt _]]; [done|].
    destruct Hno as [->|(above & Ha & Hnot)]; [lia|].
    destruct (Hall (i - 1)) as (l & Hl & Hacc); [lia|].
    rewrite Ha in Hl. injection Hl as <-. by destruct Hnot.
  - intros i' st' E. destruct Hstep as [[_ E']|[_ E']];
      rewrite E in E'; injection E' as -> ->; [by right | by left].
Qed.

Lemma separator_without_header_witness :
  main_step [py "12:x"; py "-- --"] 1 (State ∅ ∅ [])
  = Some (2, print (py "-- --") (State ∅ ∅ [])).
Proof.
  apply (separator_without_header [py "12:x"; py "-- --"] 1 (State ∅ ∅ [])
           (py "-- --")); [reflexivity | reflexivity |].
  right. exists (py "12:x"). split; [reflexivity|].
  intros [_ Hpure].
  specialize (Hpure (2, 3) 2). simpl in Hpure.
  discriminate Hpure; [left | lia | lia].
Defined.

(** X15. The header-only branch of [main] computes what [process_table]
    returns for no data line, an [IndexError] included. *)
Theorem header_only_is_process_table lines header_indices dash_line_idx
    columns :
  header_only_table lines header_indices columns
  = process_table lines header_indices dash_line_idx [] columns.
Proof.
  unfold header_only_table, process_table.
  destruct (extract_multiline_headers lines header_indices columns)
    as [header_texts|] eqn:E; [|done].
  cbn [mbind option_bind].
  assert (length header_texts = length columns) as Hlen.
  { apply mapM_Some_1, Forall2_length in E. done. }
  change (raw_rows [] columns) with ([] : list (list str)).
  change (stripped_rows []) with ([] : list (list str)).
  assert (column_justifications [] (length columns)
          = Some ((λ _, Left) <$> seq 0 (length columns))) as ->.
  { unfold column_justifications. by apply mapM_Some_fmap. }
  assert (column_widths header_texts [] (length columns)
          = Some (max_len <$> header_texts)) as ->.
  { unfold column_widths. apply mapM_seq_Some; [by rewrite length_fmap|].
    intros i w. rewrite list_lookup_fmap.
    destruct (header_texts !! i) as [col_texts|]; [|done]. simpl.
    intros [= <-]. f_equal. unfold max_len at 2. simpl. lia. }
  cbn [mbind option_bind].
  destruct (mapM _ (seq 0 (length header_indices))) as [formatted|]; [|done].
  cbn [mbind option_bind].
  rewrite <-Hlen, <-(length_fmap max_len header_texts), dash_row_widths.
  done.
Qed.

(** X16. The formatter reads [lines] at the header indices only, and never
    looks at [dash_line_idx]. *)
Theorem process_table_reads_headers_only lines lines' header_indices
    dash_line_idx dash_line_idx' data_lines columns :
  Forall (λ idx, lines !! idx = lines' !! idx) header_indices →
  process_table lines header_indices dash_line_idx data_lines columns
  = process_table lines' header_indices dash_line_idx' data_lines columns.
Proof.
  intros Hsame. unfold process_table.
  assert (extract_multiline_headers lines header_indices columns
          = extract_multiline_headers lines' header_indices columns) as ->;
    [|done].
  unfold extract_multiline_headers.
  induction columns as [|col columns IHc]; [done|].
  rewrite !mapM_cons_unfold, IHc. f_equal. clear IHc.
  induction Hsame as [|idx rest Hidx _ IH]; [done|].
  by rewrite !mapM_cons_unfold, Hidx, IH.
Qed.

Lemma process_table_reads_headers_only_witness :
  process_table [py "A  B"; py "-  -"; py "1  2"] [0] 1 [py "1  2"]
                [(0, 1); (3, 4)]
  = process_table [py "A  B"] [0] 7 [py "1  2"] [(0, 1); (3, 4)].
Proof.
  apply (process_table_reads_headers_only
           [py "A  B"; py "-  -"; py "1  2"] [py "A  B"] [0] 1 7).
  repeat constructor.
Defined.

(** ** Cells and header lines *)

(** X17. [extract_value] is the plain slice [line[start:end]]: character
    [k] of the value is character [start + k] of the line as long as
    [start + k < end], the guard on [start] and the [min] change nothing,
    and the value has [min(end, len(line)) - start] characters. *)
Theorem extract_value_lookup line start end_ :
  (∀ k, extract_value line start end_ !! k
        = if bool_decide (start + k < end_) then line !! (start + k)
          else None) ∧
  length (extract_value line start end_) = min end_ (length line) - start.
Proof.
  rewrite extract_value_take_drop. split.
  - intros k. case_bool_decide as Hk.
    + rewrite lookup_take_lt by lia. by rewrite lookup_drop.
    + apply lookup_take_ge. lia.
  - rewrite length_take, length_drop. lia.
Qed.

(** X18. Header validity looks at the gap positions the line has, and at
    nothing else: a line cut short stays valid, and spaces added at the
    end change nothing. *)
Theorem header_validity_prefix_and_padding line columns gaps n :
  (is_valid_header_line line columns gaps = true →
   is_valid_header_line (take n line) columns gaps = true) ∧
  is_valid_header_line (line ++ replicate n SPACE) columns gaps
  = is_valid_header_line line columns gaps.
Proof.
  split.
  - rewrite !is_valid_header_line_iff. intros H gap pos Hgap Hpos Hlen.
    rewrite length_take in Hlen. rewrite lookup_take_lt by lia.
    apply (H gap); [done..|lia].
  - apply eq_true_iff_eq. rewrite !is_valid_header_line_iff. split.
    + intros H gap pos Hgap Hpos Hlen.
      specialize (H gap pos Hgap Hpos). rewrite lookup_app_l in H by done.
      apply H. rewrite length_app. lia.
    + intros H gap pos Hgap Hpos Hlen.
      destruct (decide (pos < length line)) as [Hlt|Hge].
      * rewrite lookup_app_l by done. by apply (H gap).
      * rewrite lookup_app_r by lia. apply lookup_replicate_2.
        rewrite length_app, length_replicate in Hlen. lia.
Qed.

(** ** Line endings *)

Lemma replace_crlf_line (line rest : str) :
  Forall (λ c, c ≠ CR) line →
  replace_crlf (line ++ CR :: NL :: rest) = line ++ NL :: replace_crlf rest.
Proof.
  induction 1 as [|c line Hc _ IH]; [done|].
  rewrite <-!app_comm_cons.
  destruct (line ++ CR :: NL :: rest) as [|d s] eqn:E.
  { by destruct line. }
  change (replace_crlf (c :: d :: s))
    with (if (c =? CR)%N && (d =? NL)%N then NL :: replace_crlf s
          else c :: replace_crlf (d :: s)).
  destruct (N.eqb_spec c CR) as [?|_]; [done|]. simpl andb. by rewrite IH.
Qed.

Lemma replace_crlf_no_newline (s : str) :
  Forall (λ c, c ≠ NL) s → replace_crlf s = s.
Proof.
  induction 1 as [|c s Hc Hs IH]; [done|].
  destruct s as [|d s]; [done|].
  change (replace_crlf (c :: d :: s))
    with (if (c =? CR)%N && (d =? NL)%N then NL :: replace_crlf s
          else c :: replace_crlf (d :: s)).
  apply Forall_cons_1 in Hs as [Hd _].
  destruct (N.eqb_spec d NL) as [?|_]; [done|].
  rewrite andb_false_r. by rewrite IH.
Qed.

Lemma replace_cr_app (s t : str) :
  replace_cr (s ++ t) = replace_cr s ++ replace_cr t.
Proof. unfold replace_cr. apply fmap_app. Qed.

(** X19. The three line endings read the same: lines without line break
    and byte-order mark, written with [\r\n], with a lone [\r] or with
    [\n] after each line, are read back as these lines, and a byte-order
    mark in front of the text is dropped. *)
Theorem read_lines_line_endings (lines : list str) :
  Forall (Forall (λ c, c ≠ NL ∧ c ≠ CR ∧ c ≠ BOM)) lines →
  read_lines (concat ((λ line, line ++ [CR; NL]) <$> lines)) = lines ∧
  read_lines (concat ((λ line, line ++ [CR]) <$> lines)) = lines ∧
  read_lines (write_lines lines) = lines ∧
  read_lines (BOM :: write_lines lines) = lines.
Proof.
  intros H.
  pose proof (read_write_lines lines H) as Hrw.
  assert (Forall (λ c, c ≠ CR) (write_lines lines)) as Hcr.
  { unfold write_lines. apply Forall_concat, Forall_fmap.
    eapply Forall_impl; [exact H|]. intros line Hl. simpl.
    apply Forall_app. split; [|by repeat constructor].
    eapply Forall_impl; [exact Hl|]. by intros c (_ & ? & _). }
  assert (∀ content,
            head content ≠ Some BOM →
            replace_cr (replace_crlf content) = write_lines lines →
            read_lines content = lines) as Hnorm.
  { intros content Hb Hc. etrans; [|exact Hrw]. unfold read_lines.
    assert (∀ s : str, head s ≠ Some BOM →
              match s with
              | c :: s' => if (c =? BOM)%N then s' else s
              | [] => s
              end = s) as Hbom.
    { intros [|c s] Hs; [done|].
      destruct (N.eqb_spec c BOM) as [->|_]; [by destruct Hs | done]. }
    rewrite (Hbom content Hb), Hc.
    rewrite (Hbom (write_lines lines)).
    - by rewrite replace_crlf_id, replace_cr_id.
    - destruct lines as [|[|c l] ls]; [done..|].
      apply Forall_cons_1 in H as [[(_ & _ & ?) _]%Forall_cons_1 _].
      rewrite write_lines_cons. simpl. congruence. }
  assert (∀ (term : str) (l : list str),
            head (concat ((λ line, line ++ CR :: term) <$> l)) ≠ Some BOM ∨
            ¬ Forall (Forall (λ c, c ≠ NL ∧ c ≠ CR ∧ c ≠ BOM)) l) as Hhead.
  { intros term [|[|c l] ls]; [by left..|].
    destruct (decide (c = BOM)) as [->|Hc]; [right | left; simpl; congruence].
    by intros [[(_ & _ & ?) _]%Forall_cons_1 _]%Forall_cons_1. }
  split; [|split; [|split; [done|]]].
  - apply Hnorm; [by destruct (Hhead [NL] lines)|]. clear Hrw Hnorm Hhead.
    induction H as [|line rest Hl Hrest IH]; [done|].
    rewrite fmap_cons, write_lines_cons. simpl concat.
    rewrite <-app_assoc. simpl app.
    rewrite replace_crlf_line.
    2:{ eapply Forall_impl; [exact Hl|]. by intros c (_ & ? & _). }
    rewrite replace_cr_app. rewrite replace_cr_id.
    2:{ eapply Forall_impl; [exact Hl|]. by intros c (_ & ? & _). }
    f_equal. change (replace_cr (NL :: ?s)) with (NL :: replace_cr s).
    f_equal. apply IH.
    unfold write_lines. apply Forall_concat, Forall_fmap.
    eapply Forall_impl; [exact Hrest|]. intros l Hl'. simpl.
    apply Forall_app. split; [|by repeat constructor].
    eapply Forall_impl; [exact Hl'|]. by intros c (_ & ? & _).
  - apply Hnorm; [by destruct (Hhead [] lines)|].
    rewrite replace_crlf_no_newline.
    2:{ apply Forall_concat, Forall_fmap.
        eapply Forall_impl; [exact H|]. intros l Hl. simpl.
        apply Forall_app. split; [|by repeat constructor].
        eapply Forall_impl; [exact Hl|]. by intros c (? & _). }
    clear Hrw Hnorm Hhead Hcr.
    induction H as [|line rest Hl Hrest IH]; [done|].
    rewrite fmap_cons, write_lines_cons. simpl concat.
    rewrite <-app_assoc. simpl app.
    rewrite replace_cr_app. rewrite replace_cr_id.
    2:{ eapply Forall_impl; [exact Hl|]. by intros c (_ & ? & _). }
    f_equal. change (replace_cr (CR :: ?s)) with (NL :: replace_cr s).
    by f_equal.
  - unfold read_lines. change (BOM =? BOM)%N with true. cbv iota.
    rewrite replace_crlf_id, replace_cr_id by done.
    unfold read_lines in Hrw.
    assert (match write_lines lines with
            | c :: content' =>
                if (c =? BOM)%N then content' else write_lines lines
            | [] => write_lines lines
            end = write_lines lines) as Hb.
    { destruct lines as [|[|c l] ls]; [done..|].
      apply Forall_cons_1 in H as [[(_ & _ & Hc) _]%Forall_cons_1 _].
      rewrite write_lines_cons. simpl.
      by destruct (N.eqb_spec c BOM). }
    rewrite Hb in Hrw.
    by rewrite replace_crlf_id, replace_cr_id in Hrw by done.
Qed.

Lemma read_lines_line_endings_witness :
  read_lines (py "A  B" ++ [CR; NL] ++ py "-  -" ++ [CR; NL])
  = [py "A  B"; py "-  -"].
Proof.
  apply (read_lines_line_endings [py "A  B"; py "-  -"]).
  repeat constructor; discriminate.
Defined.
